(** * metro-stats: the record browsing table of [src/app/page.tsx]

    A shallow embedding of the generic [DataTable] component (search, sort,
    pagination over an array of records) and of the chart data the dashboard
    feeds to its distribution charts, with the properties the design document
    states about them. *)

From Stdlib Require Import List ZArith Lia Bool Ascii String Permutation.
From Stdlib Require Import DecimalString Sorted NArith.
Import ListNotations.

Local Open Scope Z_scope.

(* ===================================================================== *)
(** * JavaScript primitives used by the component *)
(* ===================================================================== *)

(** JavaScript numbers are IEEE doubles. The table only compares them with
    [<], prints them with [String(..)] and obtains them from other
    primitives through [ToNumber]; these operations are the interface below.
    [num_ltb_asym] holds of all doubles, [NaN] included: [x < y] and
    [y < x] are never both true. *)
Class JsNumber : Type := {
  num : Type;
  num_ltb : num -> num -> bool;
  num_toString : num -> string;
  num_ofString : string -> num;
  num_ofBool : bool -> num;
  num_NaN : num;
  num_ltb_asym : forall x y, num_ltb x y = true -> num_ltb y x = false
}.

Module JS.

(** ** Strings *)

(** [String.prototype.toLowerCase] on ASCII text (character codes below
    128): the letters A-Z move to a-z, every other character stays. Outside
    ASCII the case mapping of the language is not letter by letter (a final
    capital sigma depends on what precedes it) and is not modelled: a
    property that takes lower-cased text apart is stated for ASCII text. *)
Definition lower_ascii (c : ascii) : ascii :=
  let n := nat_of_ascii c in
  if ((65 <=? n)%nat && (n <=? 90)%nat)%bool then ascii_of_nat (n + 32) else c.

Fixpoint toLowerCase (s : string) : string :=
  match s with
  | EmptyString => EmptyString
  | String c s' => String (lower_ascii c) (toLowerCase s')
  end.

(** [s.includes(t)]: [t] occurs in [s] as a contiguous run of characters. *)
Fixpoint includes (s t : string) : bool :=
  (String.prefix t s ||
   match s with
   | EmptyString => false
   | String _ s' => includes s' t
   end)%bool.

(** [Array.prototype.join(",")] on an array of strings. *)
Definition join (l : list string) : string := String.concat "," l.

(** ** Arrays *)

Section Arrays.
Context {A : Type}.

(** [arr.slice(start, end)]: a negative index counts from the end of the
    array, both indices are clamped into [0, length]. *)
Definition slice_index (len i : Z) : Z :=
  if i <? 0 then Z.max (len + i) 0 else Z.min i len.

Definition slice (start end_ : Z) (l : list A) : list A :=
  let len := Z.of_nat (List.length l) in
  let k := slice_index len start in
  let final := slice_index len end_ in
  firstn (Z.to_nat (Z.max (final - k) 0)) (skipn (Z.to_nat k) l).

(** [arr.sort(comparefn)]. The sort is stable (ECMAScript 2019): an
    element moves behind a later one only when the comparator returns a
    positive number for the pair. Modelled by insertion from the right,
    which keeps every earlier element in front of the later ones it does
    not compare greater than. For a consistent comparator the language
    fixes the result (the sorted permutation that keeps equal elements in
    order) and this is it. For an inconsistent comparator the language
    leaves the order to the engine, and this function need not agree with
    it: module [V8] below has the engine's own procedure. *)
Fixpoint sort_insert (cmp : A -> A -> Z) (x : A) (l : list A) : list A :=
  match l with
  | [] => [x]
  | y :: l' => if 0 <? cmp x y then y :: sort_insert cmp x l' else x :: l
  end.

Fixpoint sort (cmp : A -> A -> Z) (l : list A) : list A :=
  match l with
  | [] => []
  | x :: l' => sort_insert cmp x (sort cmp l')
  end.
End Arrays.

(** [Math.ceil(n / r)] for an array length [n] and a non-zero integer [r]
    (for [r = 0] JavaScript yields [Infinity] or [NaN], which no [Z]
    represents; the rows-per-page control never offers 0, and a property
    of the page count is stated for a positive page size). *)
Definition ceil_div (n r : Z) : Z := - ((- n) / r).

(** ** Values *)

Section Values.
Context {N : JsNumber}.

(** The values a record field holds in the dashboard's datasets, and
    [undefined], the result of reading a field a record does not have. *)
Inductive value : Type :=
| VUndefined
| VBool (b : bool)
| VNum (n : num)
| VStr (s : string)
| VArr (l : list string).

(** [String(v)]. *)
Definition toString (v : value) : string :=
  match v with
  | VUndefined => "undefined"
  | VBool true => "true"
  | VBool false => "false"
  | VNum n => num_toString n
  | VStr s => s
  | VArr l => join l
  end.

(** [ToPrimitive]: an array becomes its string form. *)
Definition toPrimitive (v : value) : value :=
  match v with
  | VArr l => VStr (join l)
  | _ => v
  end.

(** [ToNumber] on a primitive. *)
Definition toNumber (v : value) : num :=
  match v with
  | VUndefined => num_NaN
  | VBool b => num_ofBool b
  | VNum n => n
  | VStr s => num_ofString s
  | VArr l => num_ofString (join l)
  end.

(** [a < b]: two strings compare by code units, anything else compares
    as numbers (a comparison with [NaN] is false). *)
Definition lt (a b : value) : bool :=
  match toPrimitive a, toPrimitive b with
  | VStr s, VStr t => String.ltb s t
  | pa, pb => num_ltb (toNumber pa) (toNumber pb)
  end.

(** [a > b] is [b < a]. *)
Definition gt (a b : value) : bool := lt b a.

(** A record is an object: its own properties in insertion order. *)
Definition object : Type := list (string * value).

(** [Object.values(o)]. *)
Definition values (o : object) : list value := map snd o.

(** [o[k]] for a data field [k]: the value of the own property [k],
    [undefined] when [o] has none. Names every object inherits
    ([constructor], [toString], ...) are not data fields and are not
    modelled; no column of the dashboard uses one. *)
Fixpoint get (o : object) (k : string) : value :=
  match o with
  | [] => VUndefined
  | (k', v) :: o' => if String.eqb k' k then v else get o' k
  end.
End Values.

End JS.

(* ===================================================================== *)
(** * A store of arrays *)
(* ===================================================================== *)

(** Arrays are objects held by reference: a store maps locations to array
    contents, and the array methods the table calls read, allocate or
    overwrite cells of it. *)
Module Store.

Definition loc : Type := nat.

Section Store.
Context {A : Type}.

Definition heap : Type := list (list A).

(** Computations over the store; [None] is a dangling reference. *)
Definition M (R : Type) : Type := heap -> option (R * heap).

Definition ret {R : Type} (x : R) : M R := fun h => Some (x, h).

Definition bind {R S : Type} (c : M R) (k : R -> M S) : M S :=
  fun h =>
    match c h with
    | Some (x, h') => k x h'
    | None => None
    end.

Definition deref (l : loc) : M (list A) :=
  fun h =>
    match nth_error h l with
    | Some a => Some (a, h)
    | None => None
    end.

Definition alloc (a : list A) : M loc :=
  fun h => Some (List.length h, h ++ [a]).

Fixpoint update (l : loc) (a : list A) (h : heap) : heap :=
  match h, l with
  | [], _ => []
  | _ :: h', O => a :: h'
  | x :: h', S l' => x :: update l' a h'
  end.

Definition assign (l : loc) (a : list A) : M unit :=
  fun h =>
    if (l <? List.length h)%nat then Some (tt, update l a h) else None.

(** [arr.filter(p)]: a new array. *)
Definition arr_filter (p : A -> bool) (l : loc) : M loc :=
  bind (deref l) (fun a => alloc (filter p a)).

(** [[...arr]]: a new array with the same elements. *)
Definition arr_spread (l : loc) : M loc :=
  bind (deref l) (fun a => alloc a).

(** [arr.sort(cmp)]: sorts [arr] in place and returns [arr] itself. *)
Definition arr_sort (cmp : A -> A -> Z) (l : loc) : M loc :=
  bind (deref l) (fun a =>
  bind (assign l (JS.sort cmp a)) (fun _ => ret l)).

(** [arr.slice(start, end)]: a new array. *)
Definition arr_slice (start end_ : Z) (l : loc) : M loc :=
  bind (deref l) (fun a => alloc (JS.slice start end_ a)).

(** [arr.length]. *)
Definition arr_length (l : loc) : M Z :=
  bind (deref l) (fun a => ret (Z.of_nat (List.length a))).
End Store.

End Store.

(* ===================================================================== *)
(** * The [DataTable] component *)
(* ===================================================================== *)

Module DataTable.

Section Component.
Context {N : JsNumber}.

(** A record of any dataset: [T] of [DataTable<T>]. *)
Definition record : Type := JS.object.

Inductive Direction : Type := asc | desc.

Definition Direction_eqb (d e : Direction) : bool :=
  match d, e with
  | asc, asc | desc, desc => true
  | _, _ => false
  end.

(** [sortConfig]: [{ key, direction }]. *)
Record SortConfig : Type := mkSortConfig {
  key : string;
  direction : Direction
}.

(** The flags of [DataTableProps]; [data] is passed separately. *)
Record Props : Type := mkProps {
  pagination : bool;
  searchable : bool;
  sortable : bool
}.

(** [pagination = true, searchable = true, sortable = true]: the defaults
    of the destructured props; no use of the table overrides them. *)
Definition defaultProps : Props := mkProps true true true.

(** The four [useState] cells. *)
Record State : Type := mkState {
  page : Z;
  rowsPerPage : Z;
  searchTerm : string;
  sortConfig : option SortConfig
}.

(** [useState(0)], [useState(10)], [useState('')], [useState(null)]. *)
Definition initialState : State := mkState 0 10 "" None.

(** ** The render body: filter, sort, paginate *)

(** The callback of [data.filter]: some value of the record, as a
    lower-cased string, includes the lower-cased search term. *)
Definition matches (term : string) (item : record) : bool :=
  existsb
    (fun v => JS.includes (JS.toLowerCase (JS.toString v)) (JS.toLowerCase term))
    (JS.values item).

Definition filteredData (props : Props) (st : State) (data : list record)
  : list record :=
  if searchable props then filter (matches (searchTerm st)) data else data.

(** The comparator handed to [sort]. *)
Definition compareFn (cfg : SortConfig) (a b : record) : Z :=
  let aValue := JS.get a (key cfg) in
  let bValue := JS.get b (key cfg) in
  if JS.lt aValue bValue then
    (if Direction_eqb (direction cfg) asc then -1 else 1)
  else if JS.gt aValue bValue then
    (if Direction_eqb (direction cfg) asc then 1 else -1)
  else 0.

Definition sortedData (props : Props) (st : State) (data : list record)
  : list record :=
  match sortable props, sortConfig st with
  | true, Some cfg => JS.sort (compareFn cfg) (filteredData props st data)
  | _, _ => filteredData props st data
  end.

Definition paginatedData (props : Props) (st : State) (data : list record)
  : list record :=
  if pagination props then
    JS.slice (page st * rowsPerPage st)
             (page st * rowsPerPage st + rowsPerPage st)
             (sortedData props st data)
  else sortedData props st data.

(** [Math.ceil(filteredData.length / rowsPerPage)], the page count every
    pager control computes. *)
Definition pageCount (props : Props) (st : State) (data : list record) : Z :=
  JS.ceil_div (Z.of_nat (List.length (filteredData props st data)))
              (rowsPerPage st).

(** ** Event handlers *)

Definition setPage (p : Z) (st : State) : State :=
  mkState p (rowsPerPage st) (searchTerm st) (sortConfig st).

Definition setRowsPerPage (r : Z) (st : State) : State :=
  mkState (page st) r (searchTerm st) (sortConfig st).

Definition setSearchTerm (t : string) (st : State) : State :=
  mkState (page st) (rowsPerPage st) t (sortConfig st).

Definition setSortConfig (c : SortConfig) (st : State) : State :=
  mkState (page st) (rowsPerPage st) (searchTerm st) (Some c).

(** [handleSort]. *)
Definition handleSort (props : Props) (k : string) (st : State) : State :=
  if negb (sortable props) then st
  else
    let direction :=
      match sortConfig st with
      | Some cfg =>
          if (String.eqb (key cfg) k && Direction_eqb (direction cfg) asc)%bool
          then desc else asc
      | None => asc
      end in
    setSortConfig (mkSortConfig k direction) st.

(** [onChange] of the search input: [setSearchTerm(e.target.value)]. *)
Definition onSearchChange (text : string) (st : State) : State :=
  setSearchTerm text st.

(** [onChange] of the rows-per-page select, [v] being
    [Number(e.target.value)]: [setRowsPerPage(v); setPage(0)]. *)
Definition onRowsPerPageChange (v : Z) (st : State) : State :=
  setPage 0 (setRowsPerPage v st).

(** The options of the select. *)
Definition rowsPerPageOptions : list Z := [5; 10; 25; 50; 100].

(** The pager buttons; [pages] is the page count of the current render.
    A disabled button does not fire. *)
Definition onFirst (st : State) : State :=
  if page st =? 0 then st else setPage 0 st.

Definition onPrevious (st : State) : State :=
  if page st =? 0 then st else setPage (Z.max 0 (page st - 1)) st.

Definition onNext (pages : Z) (st : State) : State :=
  if pages - 1 <=? page st then st
  else setPage (Z.min (pages - 1) (page st + 1)) st.

Definition onLast (pages : Z) (st : State) : State :=
  if pages - 1 <=? page st then st else setPage (pages - 1) st.

(** The numbered buttons: [Array.from({ length: Math.min(5, pages) })],
    button [i] showing [page - 2 + i] unless that falls outside
    [0, pages). *)
Definition onPageNumber (pages : Z) (i : Z) (st : State) : State :=
  let pageNumber := page st - 2 + i in
  if ((0 <=? i) && (i <? Z.min 5 pages))%bool then
    if ((pageNumber <? 0) || (pages <=? pageNumber))%bool then st
    else setPage pageNumber st
  else st.

(** What the user can do to a rendered table. *)
Inductive Event : Type :=
| SearchInput (text : string)
| ClickHeader (columnKey : string)
| SelectRowsPerPage (option_index : nat)
| ClickFirst
| ClickPrevious
| ClickPageNumber (i : Z)
| ClickNext
| ClickLast.

(** The state after an event on a table rendered with [pages] pages. The
    search box exists only when [searchable], the pager only when
    [pagination]. *)
Definition handle (props : Props) (pages : Z) (ev : Event) (st : State)
  : State :=
  match ev with
  | SearchInput text =>
      if searchable props then onSearchChange text st else st
  | ClickHeader k => handleSort props k st
  | SelectRowsPerPage i =>
      if pagination props then
        match nth_error rowsPerPageOptions i with
        | Some v => onRowsPerPageChange v st
        | None => st
        end
      else st
  | ClickFirst => if pagination props then onFirst st else st
  | ClickPrevious => if pagination props then onPrevious st else st
  | ClickPageNumber i =>
      if pagination props then onPageNumber pages i st else st
  | ClickNext => if pagination props then onNext pages st else st
  | ClickLast => if pagination props then onLast pages st else st
  end.

(** The state after a sequence of events on the table over [data],
    starting from [st]; every event meets the render of the state before
    it. *)
Fixpoint run (props : Props) (data : list record) (evs : list Event)
  (st : State) : State :=
  match evs with
  | [] => st
  | ev :: evs' =>
      run props data evs' (handle props (pageCount props st data) ev st)
  end.

(** ** The render body over a store of arrays

    [data] is the caller's array, held by reference. [filter] and [slice]
    allocate, [[...filteredData]] allocates a copy and [sort] sorts that
    copy in place; without [searchable], [filteredData] is the caller's
    array itself. *)

Record Rendered : Type := mkRendered {
  filteredRef : Store.loc;
  sortedRef : Store.loc;
  paginatedRef : Store.loc
}.

Definition render (props : Props) (st : State) (data : Store.loc)
  : Store.M (A := record) Rendered :=
  Store.bind
    (if searchable props
     then Store.arr_filter (matches (searchTerm st)) data
     else Store.ret data)
    (fun filtered =>
  Store.bind
    (match sortable props, sortConfig st with
     | true, Some cfg =>
         Store.bind (Store.arr_spread filtered)
                    (fun copy => Store.arr_sort (compareFn cfg) copy)
     | _, _ => Store.ret filtered
     end)
    (fun sorted =>
  Store.bind
    (if pagination props
     then Store.arr_slice (page st * rowsPerPage st)
                          (page st * rowsPerPage st + rowsPerPage st) sorted
     else Store.ret sorted)
    (fun paginated =>
  Store.ret (mkRendered filtered sorted paginated)))).

(** A browsing session over the store: render, let the event act on the
    state (the pager reads [filteredData.length] of that render), render
    again, and so on. *)
Fixpoint session (props : Props) (data : Store.loc) (evs : list Event)
  (st : State) : Store.M (A := record) State :=
  Store.bind (render props st data) (fun r =>
    match evs with
    | [] => Store.ret st
    | ev :: evs' =>
        Store.bind (Store.arr_length (filteredRef r)) (fun n =>
          session props data evs'
            (handle props (JS.ceil_div n (rowsPerPage st)) ev st))
    end).
End Component.

End DataTable.

(* ===================================================================== *)
(** * Chart data and the distribution aggregation *)
(* ===================================================================== *)

Module Aggregator.

(** [ChartDataItem]: a bucket as the charts receive it. *)
Record ChartDataItem : Type := mkItem {
  name : string;
  value : Z
}.

(** The distributions [fetchData] hands to [setData]. *)
Definition ptcPercentageDistribution : list ChartDataItem :=
  [ mkItem "90-95%" 8; mkItem "95-97%" 7; mkItem "97-99%" 18;
    mkItem "99-100%" 14 ].

Definition runCountDistribution : list ChartDataItem :=
  [ mkItem "1 run" 7; mkItem "2 runs" 16; mkItem "3 runs" 11;
    mkItem "4 runs" 5; mkItem "5+ runs" 9 ].

Definition initsDistribution : list ChartDataItem :=
  [ mkItem "Successful" 121; mkItem "Failed" 18; mkItem "Incomplete" 23 ].

Definition enforcementsDistribution : list ChartDataItem :=
  [ mkItem "Predictive" 1; mkItem "Reactive" 2; mkItem "Emergency" 0 ].

Definition total (items : list ChartDataItem) : Z :=
  fold_right (fun it acc => value it + acc) 0 items.

Section Distribute.
Context {R : Type}.

Record Bucket : Type := mkBucket {
  label : string;
  count : nat
}.

Inductive Error : Type :=
| UnknownBucketLabel (l : string).

Definition known (bucketOrder : list string) (l : string) : bool :=
  existsb (String.eqb l) bucketOrder.

(** Modelled from the spec: [distribute], which the source does not
    contain (its distributions are the literals above). One bucket per
    label of [bucketOrder], in that order, counting the records that
    [classify] sends to the label; a record whose label is not in
    [bucketOrder] makes the call fail with [UnknownBucketLabel]. *)
Definition distribute (records : list R) (classify : R -> string)
  (bucketOrder : list string) : Error + list Bucket :=
  match find (fun r => negb (known bucketOrder (classify r))) records with
  | Some r => inl (UnknownBucketLabel (classify r))
  | None =>
      inr (map (fun l =>
                  mkBucket l
                    (List.length
                       (filter (fun r => String.eqb (classify r) l) records)))
               bucketOrder)
  end.

Definition sum_counts (bs : list Bucket) : nat :=
  fold_right (fun b acc => (count b + acc)%nat) 0%nat bs.
End Distribute.

End Aggregator.

(* ===================================================================== *)
(** * Integer-valued numbers, and sample datasets *)
(* ===================================================================== *)

(** The doubles that are integers, and [NaN]: enough for the identifier,
    counter and hour columns of the datasets. [ofString] reads the decimal
    integers [toString] prints and the empty string, and takes any other
    string for [NaN]. *)
Module IntNumber.

Definition t : Type := option Z.

Definition ltb (a b : t) : bool :=
  match a, b with
  | Some x, Some y => x <? y
  | _, _ => false
  end.

Definition toString (a : t) : string :=
  match a with
  | Some z => DecimalString.NilZero.string_of_int (Z.to_int z)
  | None => "NaN"
  end.

Definition ofString (s : string) : t :=
  if String.eqb s "" then Some 0
  else
    match DecimalString.NilZero.int_of_string s with
    | Some i => Some (Z.of_int i)
    | None => None
    end.

Definition ofBool (b : bool) : t := Some (if b then 1 else 0).

Definition ltb_asym (x y : t) : ltb x y = true -> ltb y x = false.
Proof.
  destruct x as [x|], y as [y|]; simpl; try discriminate.
  intros H. apply Z.ltb_lt in H. apply Z.ltb_ge. lia.
Qed.

#[export] Instance number : JsNumber := {|
  num := t;
  num_ltb := ltb;
  num_toString := toString;
  num_ofString := ofString;
  num_ofBool := ofBool;
  num_NaN := None;
  num_ltb_asym := ltb_asym
|}.

End IntNumber.

Module Sample.
Import IntNumber.

Definition int (z : Z) : JS.value := JS.VNum (N := number) (Some z).

(** Locomotive [i] of the generator loop, [id: `MARC ${7800 + i}`], with its
    integer-valued columns; [runs] is one of the values 1 to 7 the generator
    draws from. *)
Definition locomotive (i : Z) : DataTable.record :=
  [ ("id", JS.VStr (String.append "MARC " (toString (Some (7800 + i)))));
    ("runs", int (1 + i mod 7));
    ("faults", int ((i * 37) mod 100));
    ("enforcements", int (i mod 2));
    ("initializations", int (1 + i mod 5));
    ("cutOutTrips", int (i mod 3)) ]%string.

(** [for (let i = 1; i <= 48; i++)]. *)
Definition allLocomotives : list DataTable.record :=
  map (fun i => locomotive (Z.of_nat i)) (seq 1 48).

(** A geographic event; the table over these has a column whose key,
    ['coordinates'], is no field of the record. *)
Definition geographicPoint (i : Z) (eventType : string) : DataTable.record :=
  [ ("id", int i);
    ("latitude", int 39);
    ("longitude", int (-77));
    ("eventType", JS.VStr eventType);
    ("locomotive", JS.VStr "MARC 7801");
    ("timestamp", JS.VStr "2025-02-26T08:30:00");
    ("details", JS.VStr (String.append eventType " event for MARC 7801")) ]%string.

Definition geographicData : list DataTable.record :=
  [ geographicPoint 1 "Fault"; geographicPoint 2 "CutOut";
    geographicPoint 3 "Enforcement"; geographicPoint 4 "Fault" ]%string.

(** Four routes, two of them with the same number of runs. *)
Definition route (routeId : string) (totalRuns : Z) : DataTable.record :=
  [ ("routeId", JS.VStr routeId); ("totalRuns", int totalRuns) ]%string.

Definition trainRoutes : list DataTable.record :=
  [ route "R1" 20; route "R2" 12; route "R3" 20; route "R4" 15 ]%string.

(** The routes with 20 runs. *)
Definition twentyRuns (r : DataTable.record) : bool :=
  match JS.get r "totalRuns" with
  | JS.VNum (Some z) => z =? 20
  | _ => false
  end.

End Sample.

(* ===================================================================== *)
(** * The browsing pipeline as the design document words it *)
(* ===================================================================== *)

Module Design.
Import DataTable.

Section Stages.
Context {N : JsNumber}.

(** Filter by search term: keep the records one of whose field values, as
    a lower-cased string, contains the lower-cased term. *)
Definition filterStage (term : string) (records : list record) : list record :=
  filter
    (fun r =>
       existsb
         (fun v =>
            JS.includes (JS.toLowerCase (JS.toString v)) (JS.toLowerCase term))
         (JS.values r))
    records.

(** Lexicographic ordering of strings: the first position where the two
    differ decides, by character code; a proper prefix comes first. *)
Fixpoint lexBefore (s t : string) : bool :=
  match s, t with
  | EmptyString, EmptyString => false
  | EmptyString, String _ _ => true
  | String _ _, EmptyString => false
  | String a s', String b t' =>
      if (nat_of_ascii a <? nat_of_ascii b)%nat then true
      else if (nat_of_ascii a =? nat_of_ascii b)%nat then lexBefore s' t'
      else false
  end.

(** "Natural ordering for numbers and lexicographic ordering for
    strings": [v] is strictly smaller than [w]. The design orders nothing
    else. *)
Definition valueBefore (v w : JS.value) : bool :=
  match v, w with
  | JS.VNum a, JS.VNum b => num_ltb a b
  | JS.VStr s, JS.VStr t => lexBefore s t
  | _, _ => false
  end.




(** The column [k] of the records is one the design can order: a string
    in every record, or a number in every record, the numbers being
    comparable with one another (as all numbers but [NaN] are): whenever
    one is smaller than another, any third is greater than the one or
    smaller than the other. *)
Definition sortableColumn (k : string) (records : list record) : Prop :=
  (forall r, In r records -> exists s, JS.get r k = JS.VStr s)
  \/ ((forall r, In r records -> exists n, JS.get r k = JS.VNum n)
      /\ forall a b c, In a records -> In b records -> In c records ->
           valueBefore (JS.get a k) (JS.get c k) = true ->
           valueBefore (JS.get a k) (JS.get b k) = true
           \/ valueBefore (JS.get b k) (JS.get c k) = true).

(** The comparator of the table is consistent on the column [k] of the
    records, as [Array.prototype.sort] needs for its result to be defined
    by the language: whenever [a < c] holds of two values of the column,
    any third value [b] has [a < b] or [b < c]. *)
Definition consistentColumn (k : string) (records : list record) : Prop :=
  forall a b c, In a records -> In b records -> In c records ->
    JS.lt (JS.get a k) (JS.get c k) = true ->
    JS.lt (JS.get a k) (JS.get b k) = true
    \/ JS.lt (JS.get b k) (JS.get c k) = true.

(** The records at the indices from [pageIndex * pageSize] up to, not
    including, [pageIndex * pageSize + pageSize]. *)
Definition sliceStage (pageIndex pageSize : Z) (records : list record)
  : list record :=
  firstn (Z.to_nat pageSize) (skipn (Z.to_nat (pageIndex * pageSize)) records).

(** The page indices [0 .. totalPages - 1]. *)
Definition pageIndices (totalPages : Z) : list Z :=
  map Z.of_nat (seq 0 (Z.to_nat totalPages)).

(** [asc] to [desc] and back. *)
Definition toggle (d : Direction) : Direction :=
  match d with
  | asc => desc
  | desc => asc
  end.

(** The record has at least one field. *)
Definition hasField (item : record) : bool :=
  match JS.values item with
  | [] => false
  | _ :: _ => true
  end.

(** The view states the data model admits: a non-negative page index and
    a positive page size. *)
Definition wellFormed (st : State) : Prop :=
  0 <= page st /\ 0 < rowsPerPage st.
End Stages.

(** The text is ASCII: every character code is below 128. On such text
    [toLowerCase] works letter by letter. *)
Fixpoint isAscii (s : string) : bool :=
  match s with
  | EmptyString => true
  | String c s' => ((nat_of_ascii c <? 128)%nat && isAscii s')%bool
  end.

End Design.

(* ===================================================================== *)
(** * [Array.prototype.sort] in V8 *)
(* ===================================================================== *)

(** The language fixes the result of [sort] only for a consistent
    comparator; for any other the order is the engine's. This is V8's
    (Chrome, Node.js) sort on an array of fewer than 64 elements, which it
    treats as a single run: the run the array starts with is found and, if
    descending, reversed, and every further element is put into place by
    a binary search ([CountAndMakeRun] and [BinaryInsertionSort] of
    [third_party/v8/builtins/array-sort.tq]). Longer arrays are cut into
    several runs that are merged, which is not modelled. *)
Module V8.

Section Sort.
Context {A : Type}.
Variable cmp : A -> A -> Z.

(** The elements after the first two that continue the run: a descending
    run ends at the first element not below its predecessor, an ascending
    one at the first element below its predecessor. *)
Fixpoint extendRun (isDescending : bool) (previous : A) (rest : list A) : nat :=
  match rest with
  | [] => O
  | current :: rest' =>
      let order := cmp current previous in
      if isDescending then
        if 0 <=? order then O else S (extendRun isDescending current rest')
      else
        if order <? 0 then O else S (extendRun isDescending current rest')
  end.

(** [CountAndMakeRun(0, length)]: the length of the run at the start of
    the array, and the array with that run made ascending. *)
Definition countAndMakeRun (l : list A) : nat * list A :=
  match l with
  | [] => (O, [])
  | [x] => (1%nat, [x])
  | elementHigh :: elementLow :: rest =>
      let order := cmp elementLow elementHigh in
      let isDescending := order <? 0 in
      let runLength := (2 + extendRun isDescending elementLow rest)%nat in
      (runLength,
       if isDescending
       then rev (firstn runLength l) ++ skipn runLength l
       else l)
  end.

(** The binary search for the place of [pivot] among [sorted]:
    [while (left < right) { mid = left + ((right - left) >> 1);
    if (cmp(pivot, a[mid]) < 0) right = mid; else left = mid + 1; }]. *)
Fixpoint search (fuel : nat) (pivot : A) (sorted : list A) (left right : nat)
  : nat :=
  match fuel with
  | O => left
  | S fuel' =>
      if (left <? right)%nat then
        let mid := (left + (right - left) / 2)%nat in
        match nth_error sorted mid with
        | Some x =>
            if cmp pivot x <? 0 then search fuel' pivot sorted left mid
            else search fuel' pivot sorted (S mid) right
        | None => left
        end
      else left
  end.

(** One round of [BinaryInsertionSort]: [pivot], the element after the
    sorted part, is moved to the place the search finds. *)
Definition insertPivot (sorted : list A) (pivot : A) : list A :=
  let left :=
    search (S (List.length sorted)) pivot sorted O (List.length sorted) in
  firstn left sorted ++ pivot :: skipn left sorted.

Definition binaryInsertionSort (sorted rest : list A) : list A :=
  fold_left insertPivot rest sorted.

(** [None]: an array of 64 elements or more. *)
Definition sort (l : list A) : option (list A) :=
  if (List.length l <? 2)%nat then Some l
  else if (List.length l <? 64)%nat then
    let (runLength, l') := countAndMakeRun l in
    Some (binaryInsertionSort (firstn runLength l') (skipn runLength l'))
  else None.
End Sort.

Section Table.
Context {N : JsNumber}.
Import DataTable.

(** [sortedData] of the table, run on V8. *)
Definition sortedData (props : Props) (st : State) (data : list record)
  : option (list record) :=
  match sortable props, sortConfig st with
  | true, Some cfg => sort (compareFn cfg) (filteredData props st data)
  | _, _ => Some (filteredData props st data)
  end.
End Table.

End V8.

(* ===================================================================== *)
(** * What the table prints around the rows *)
(* ===================================================================== *)

Module TableText.
Import DataTable.

Section Text.
Context {N : JsNumber}.

(** [ToBoolean] on a number: false for 0, -0 and [NaN]. *)
Variable num_truthy : num -> bool.

(** [ToBoolean]: [undefined], [false], the empty string and the falsy
    numbers are false; every array is true. *)
Definition truthy (v : JS.value) : bool :=
  match v with
  | JS.VUndefined => false
  | JS.VBool b => b
  | JS.VNum n => num_truthy n
  | JS.VStr s => negb (String.eqb s "")
  | JS.VArr _ => true
  end.

(** The cell of a column without [render]:
    [String(item[column.key] || '')]. *)
Definition cellText (item : record) (columnKey : string) : string :=
  let v := JS.get item columnKey in
  JS.toString (if truthy v then v else JS.VStr "").
End Text.

Section Showing.
Context {N : JsNumber}.

(** "Showing [page * rowsPerPage + 1] to
    [Math.min((page + 1) * rowsPerPage, filteredData.length)] of
    [filteredData.length] results". *)
Definition showingFrom (st : State) : Z := page st * rowsPerPage st + 1.

Definition showingTo (props : Props) (st : State) (data : list record) : Z :=
  Z.min ((page st + 1) * rowsPerPage st)
        (Z.of_nat (List.length (filteredData props st data))).

Definition showingOf (props : Props) (st : State) (data : list record) : Z :=
  Z.of_nat (List.length (filteredData props st data)).

(** The order the direction asks for, on the strings of a sort column. *)
Definition inOrder (d : Direction) (s t : string) : Prop :=
  if Direction_eqb d asc then String.leb s t = true else String.leb t s = true.

(** The page index points at one of the pages of the current filtered
    data (at page 0 when there is none). *)
Definition inRange (props : Props) (st : State) (data : list record) : Prop :=
  0 <= page st <= Z.max 0 (pageCount props st data - 1).
End Showing.

End TableText.

(* ===================================================================== *)
(** * The [TabView] component *)
(* ===================================================================== *)

Module TabView.

Section Tabs.
(** [React.ReactNode]. *)
Context {Node : Type}.

Record Tab : Type := mkTab {
  id : string;
  label : string;
  icon : Node;
  content : Node
}.

Inductive Error : Type := TypeError.

(** [useState(tabs[0].id)]: with no tab, [tabs[0]] is [undefined] and
    reading its [id] throws. *)
Definition init (tabs : list Tab) : Error + string :=
  match tabs with
  | [] => inl TypeError
  | tab :: _ => inr (id tab)
  end.

(** [onClick] of a tab button: [setActiveTab(tab.id)]. *)
Definition onClick (tab : Tab) (activeTab : string) : string := id tab.

(** [tabs.find(tab => tab.id === activeTab)?.content]. *)
Definition shown (tabs : list Tab) (activeTab : string) : option Node :=
  match find (fun tab => String.eqb (id tab) activeTab) tabs with
  | Some tab => Some (content tab)
  | None => None
  end.

(** The buttons drawn as active: [activeTab === tab.id]. *)
Definition active (tabs : list Tab) (activeTab : string) : list bool :=
  map (fun tab => String.eqb activeTab (id tab)) tabs.

(** The active tab after clicks on the given tabs, one after the other. *)
Definition clicks (clicked : list Tab) (activeTab : string) : string :=
  fold_left (fun a tab => onClick tab a) clicked activeTab.
End Tabs.

End TabView.

(* ===================================================================== *)
(** * The theme toggle *)
(* ===================================================================== *)

Module Theme.

(** [isDarkMode] of [ThemeProvider] and whether [document.body.classList]
    holds ['dark']. *)
Record State : Type := mkState {
  isDarkMode : bool;
  bodyDark : bool
}.

(** The mount effect: [setIsDarkMode(prefersDarkMode)], and
    [classList.add('dark')] when the user prefers dark mode. *)
Definition mount (prefersDarkMode : bool) (st : State) : State :=
  mkState prefersDarkMode (if prefersDarkMode then true else bodyDark st).

(** [toggleTheme]: [setIsDarkMode(!isDarkMode)] and
    [classList.toggle('dark')]. *)
Definition toggleTheme (st : State) : State :=
  mkState (negb (isDarkMode st)) (negb (bodyDark st)).

Fixpoint toggles (n : nat) (st : State) : State :=
  match n with
  | O => st
  | S n' => toggles n' (toggleTheme st)
  end.
End Theme.

(* ===================================================================== *)
(** * The CSV export *)
(* ===================================================================== *)

Module CsvExport.

(** The line feed. *)
Definition nl : string := String (ascii_of_nat 10) EmptyString.

(** [s.split('\n')]. *)
Fixpoint lines (s : string) : list string :=
  match s with
  | EmptyString => [EmptyString]
  | String c s' =>
      if Ascii.eqb c (ascii_of_nat 10) then EmptyString :: lines s'
      else
        match lines s' with
        | l :: ls => String c l :: ls
        | [] => [String c EmptyString]
        end
  end.

(** No line feed occurs in [s]. *)
Fixpoint oneLine (s : string) : bool :=
  match s with
  | EmptyString => true
  | String c s' => (negb (Ascii.eqb c (ascii_of_nat 10)) && oneLine s')%bool
  end.

Section Csv.
Context {N : JsNumber}.

(** [n.toFixed(2)]. *)
Variable toFixed2 : num -> string.

Record OverviewData : Type := mkOverview {
  totalRuns : num;
  totalMiles : num;
  totalPtcActiveMiles : num;
  totalPtcActivePercentage : num;
  totalEnforcements : num;
  totalFaults : num;
  totalInits : num;
  totalCutOutTrips : num
}.

Record LocomotiveData : Type := mkLocomotive {
  loco_id : string;
  runs : num;
  miles : num;
  ptcActiveMiles : num;
  ptcActivePercentage : num;
  faults : num;
  enforcements : num;
  initializations : num;
  cutOutTrips : num
}.

Record FaultData : Type := mkFault {
  fault_id : num;
  locomotive : string;
  timestamp : string;
  faultCode : string;
  description : string;
  severity : string;
  resolved : bool
}.

(** The fields of [DashboardData] the export reads. *)
Record DashboardData : Type := mkData {
  overview : OverviewData;
  allLocomotives : list LocomotiveData;
  faultDetails : list FaultData
}.

(** A template literal: the parts joined, in order. *)
Definition template (parts : list string) : string :=
  String.concat EmptyString parts.

Definition overviewCsv (o : OverviewData) : string :=
  template
    [ String.append "Metric,Value" nl;
      "Total Runs,"; num_toString (totalRuns o); nl;
      "Total Miles,"; num_toString (totalMiles o); nl;
      "PTC Active Miles,"; num_toString (totalPtcActiveMiles o); nl;
      "PTC Active Percentage,"; num_toString (totalPtcActivePercentage o); nl;
      "Total Enforcements,"; num_toString (totalEnforcements o); nl;
      "Total Faults,"; num_toString (totalFaults o); nl;
      "Total Initializations,"; num_toString (totalInits o); nl;
      "Cut Out Trips,"; num_toString (totalCutOutTrips o); nl ]%string.

Definition locomotiveHeader : string :=
  "Locomotive ID,Runs,Miles,PTC Active Miles,PTC Active %,Faults,Enforcements,Initializations,Cut Out Trips".

(** One locomotive, without the line feed that ends it. *)
Definition locomotiveRow (loco : LocomotiveData) : string :=
  template
    [ loco_id loco; ","; num_toString (runs loco); ",";
      toFixed2 (miles loco); ","; toFixed2 (ptcActiveMiles loco); ",";
      toFixed2 (ptcActivePercentage loco); ",";
      num_toString (faults loco); ","; num_toString (enforcements loco); ",";
      num_toString (initializations loco); ",";
      num_toString (cutOutTrips loco) ]%string.

(** [csvContent = header; locos.forEach(loco => { csvContent += row })]. *)
Definition locomotivesCsv (locos : list LocomotiveData) : string :=
  fold_left
    (fun csvContent loco =>
       String.append csvContent (String.append (locomotiveRow loco) nl))
    locos (String.append locomotiveHeader nl).

Definition faultHeader : string :=
  "ID,Locomotive,Timestamp,Fault Code,Description,Severity,Status".

Definition quote : string := String (ascii_of_nat 34) EmptyString.

Definition faultRow (fault : FaultData) : string :=
  template
    [ num_toString (fault_id fault); ","; locomotive fault; ",";
      timestamp fault; ","; faultCode fault; ",";
      quote; description fault; quote; ","; severity fault; ",";
      if resolved fault then "Resolved" else "Open" ]%string.

Definition faultsCsv (faults : list FaultData) : string :=
  fold_left
    (fun csvContent fault =>
       String.append csvContent (String.append (faultRow fault) nl))
    faults (String.append faultHeader nl).

(** [handleExport]: the content and the file name handed to the download
    link; nothing when there is no data. *)
Definition handleExport (data : option DashboardData) (activeSection : string)
  : option (string * string) :=
  match data with
  | None => None
  | Some d =>
      if String.eqb activeSection "overview" then
        Some (overviewCsv (overview d), "MARC_PTC_Overview.csv"%string)
      else if String.eqb activeSection "locomotives" then
        Some (locomotivesCsv (allLocomotives d),
              "MARC_PTC_Locomotives.csv"%string)
      else if String.eqb activeSection "faults" then
        Some (faultsCsv (faultDetails d), "MARC_PTC_Faults.csv"%string)
      else
        Some (locomotivesCsv (allLocomotives d), "MARC_PTC_Data.csv"%string)
  end.
End Csv.

(** [toFixed(2)] on the integer-valued numbers. *)
Definition intToFixed2 (a : num (JsNumber := IntNumber.number)) : string :=
  match a with
  | Some z => String.append (IntNumber.toString (Some z)) ".00"
  | None => "NaN"
  end.

End CsvExport.

(* ===================================================================== *)
(** * Timestamps of the generated events *)
(* ===================================================================== *)

Module MockData.

(** [s.padStart(targetLength, c)] for a one-character pad string. *)
Definition padStart (targetLength : nat) (c : ascii) (s : string) : string :=
  String.append
    (string_of_list_ascii (repeat c (targetLength - String.length s)))
    s.

(** [n.toString()] of an integer-valued number. *)
Definition decimal (z : Z) : string := IntNumber.toString (Some z).

(** The timestamp of a fault, an initialization log or a geographic
    event:
    [`2025-02-26T${hour.toString().padStart(2, '0')}:${minute.toString().padStart(2, '0')}:00`]. *)
Definition timestamp (hour minute : Z) : string :=
  String.concat EmptyString
    [ "2025-02-26T"; padStart 2 "0" (decimal hour); ":";
      padStart 2 "0" (decimal minute); ":00" ]%string.

(** The integers from 0 up to, not including, [bound]. *)
Definition below (bound : nat) : list Z := map Z.of_nat (seq 0 bound).
End MockData.

(* ===================================================================== *)
(** * Sample tabs and sample export data *)
(* ===================================================================== *)

Module SampleViews.
Import IntNumber.

(** [ToBoolean] on the integer-valued numbers. *)
Definition intTruthy (a : num (JsNumber := number)) : bool :=
  match a with
  | Some z => negb (z =? 0)
  | None => false
  end.

(** The three tabs of the detailed data, with strings for nodes. *)
Definition detailTabs : list (TabView.Tab (Node := string)) :=
  [ TabView.mkTab "locomotives" "Locomotives" "L" "locomotive table";
    TabView.mkTab "faults" "Fault Details" "F" "fault table";
    TabView.mkTab "hourly" "Hourly Activity" "H" "hourly chart" ]%string.

(** Tabs of which two carry the id ["faults"]. *)
Definition clashingTabs : list (TabView.Tab (Node := string)) :=
  [ TabView.mkTab "locomotives" "Locomotives" "L" "locomotive table";
    TabView.mkTab "faults" "Fault Details" "F" "fault table";
    TabView.mkTab "hourly" "Hourly Activity" "H" "hourly chart";
    TabView.mkTab "faults" "Fault Map" "M" "fault map" ]%string.

Definition n (z : Z) : num (JsNumber := number) := Some z.




Definition sampleData : CsvExport.DashboardData (N := number) :=
  CsvExport.mkData
    (CsvExport.mkOverview (n 144) (n 4645) (n 4527) (n 97) (n 3) (n 3928)
                          (n 162) (n 216))
    [ CsvExport.mkLocomotive "MARC 7850" (n 5) (n 194) (n 192) (n 99) (n 82)
                             (n 0) (n 3) (n 4);
      CsvExport.mkLocomotive "MARC 7851" (n 6) (n 191) (n 190) (n 99) (n 40)
                             (n 1) (n 2) (n 0) ]%string
    [ CsvExport.mkFault (n 1) "MARC 7850" "2025-02-26T08:00:00" "F123"
                        "PTC Communication Error" "Low" true;
      CsvExport.mkFault (n 2) "MARC 7851" "2025-02-26T09:15:00" "F7"
                        "GPS Signal Loss on MARC 7851" "High" false ]%string.
End SampleViews.

(* ===================================================================== *)
(** * Facts about the JavaScript primitives *)
(* ===================================================================== *)

Module JSFacts.

(** ** Substring search *)

Lemma prefix_iff (t s : string) :
  String.prefix t s = true <-> exists post, s = String.append t post.
Proof.
  revert s; induction t as [|a t IH]; intros s.
  - split; [intros _; exists s; reflexivity | intros _; destruct s; reflexivity].
  - destruct s as [|b s]; simpl.
    + split; [discriminate | intros [post H]; discriminate].
    + destruct (ascii_dec a b) as [->|Hab].
      * rewrite IH. split; intros [post H]; exists post.
        -- now rewrite H.
        -- now injection H.
      * split; [discriminate | intros [post H]; injection H; congruence].
Qed.

Lemma includes_iff (s t : string) :
  JS.includes s t = true <->
  exists pre post, s = String.append pre (String.append t post).
Proof.
  induction s as [|c s IH].
  - change (JS.includes EmptyString t)
      with (String.prefix t EmptyString || false)%bool.
    rewrite orb_false_r, prefix_iff. split.
    + intros [post H]. exists EmptyString, post. exact H.
    + intros [pre [post H]]. destruct pre; simpl in H; [now exists post|discriminate].
  - change (JS.includes (String c s) t)
      with (String.prefix t (String c s) || JS.includes s t)%bool.
    rewrite orb_true_iff, prefix_iff, IH. split.
    + intros [[post H]|[pre [post H]]].
      * exists EmptyString, post. exact H.
      * exists (String c pre), post. simpl. now rewrite H.
    + intros [pre [post H]]. destruct pre as [|c' pre]; simpl in H.
      * left. now exists post.
      * right. exists pre, post. now injection H.
Qed.

Lemma includes_empty (s : string) : JS.includes s EmptyString = true.
Proof. destruct s; reflexivity. Qed.

(** ** [slice] *)

Section SliceFacts.
Context {A : Type}.
Implicit Types l : list A.

Lemma slice_nil (start end_ : Z) : JS.slice start end_ (@nil A) = [].
Proof. unfold JS.slice. now rewrite skipn_nil, firstn_nil. Qed.


(** With a non-negative [start], [slice] keeps the elements whose index
    lies in the half-open range from [start] to [end]. *)
Lemma slice_nonneg (start size : nat) l :
  JS.slice (Z.of_nat start) (Z.of_nat start + Z.of_nat size) l =
  firstn size (skipn start l).
Proof.
  unfold JS.slice, JS.slice_index.
  set (len := List.length l).
  destruct (Z.of_nat start <? 0) eqn:E1; [apply Z.ltb_lt in E1; lia|].
  destruct (Z.of_nat start + Z.of_nat size <? 0) eqn:E2;
    [apply Z.ltb_lt in E2; lia|].
  destruct (Nat.le_gt_cases len start) as [Hle|Hlt].
  - rewrite (skipn_all2 (n := start) l) by (subst len; lia).
    rewrite (skipn_all2 l) by (subst len; lia).
    now rewrite !firstn_nil.
  - replace (Z.to_nat (Z.min (Z.of_nat start) (Z.of_nat len))) with start by lia.
    destruct (Nat.le_gt_cases (start + size) len) as [Hle2|Hlt2].
    + f_equal. lia.
    + rewrite !firstn_all2; [reflexivity| |]; rewrite length_skipn;
        fold len; lia.
Qed.

End SliceFacts.

(** ** [sort] *)

Section SortFacts.
Context {A : Type}.
Variable cmp : A -> A -> Z.
Implicit Types l : list A.

Lemma sort_insert_perm (x : A) l : Permutation (x :: l) (JS.sort_insert cmp x l).
Proof.
  induction l as [|y l IH]; simpl; [reflexivity|].
  destruct (0 <? cmp x y); [|reflexivity].
  rewrite perm_swap. now apply perm_skip.
Qed.

Lemma sort_perm l : Permutation l (JS.sort cmp l).
Proof.
  induction l as [|x l IH]; simpl; [reflexivity|].
  rewrite <- sort_insert_perm. now apply perm_skip.
Qed.

Lemma sort_length l : List.length (JS.sort cmp l) = List.length l.
Proof. symmetry. apply Permutation_length, sort_perm. Qed.

Lemma sort_In (x : A) l : In x (JS.sort cmp l) <-> In x l.
Proof.
  split; apply Permutation_in; [symmetry|]; apply sort_perm.
Qed.

(** Inserting [x] leaves the elements of a class [P] in their order when
    [x] is outside the class, and puts [x] in front of them when [x]
    belongs to it and is not greater than any of them. *)
Lemma filter_sort_insert_out (P : A -> bool) (x : A) l :
  P x = false ->
  filter P (JS.sort_insert cmp x l) = filter P l.
Proof.
  intros Hx. induction l as [|y l IH]; simpl.
  - now rewrite Hx.
  - destruct (0 <? cmp x y); simpl.
    + now rewrite IH.
    + now rewrite Hx.
Qed.

Lemma filter_sort_insert_in (P : A -> bool) (x : A) l :
  P x = true ->
  (forall y, In y l -> P y = true -> cmp x y <= 0) ->
  filter P (JS.sort_insert cmp x l) = x :: filter P l.
Proof.
  intros Hx. induction l as [|y l IH]; intros Hle; simpl.
  - now rewrite Hx.
  - destruct (0 <? cmp x y) eqn:E; simpl.
    + apply Z.ltb_lt in E.
      destruct (P y) eqn:Py.
      * specialize (Hle y (or_introl eq_refl) Py). lia.
      * apply IH. intros z Hz. apply Hle. now right.
    + now rewrite Hx.
Qed.

(** Stability: the elements of a class whose members never compare
    greater than one another come out in the order they went in. *)
Lemma sort_stable (P : A -> bool) l :
  (forall a b, In a l -> In b l -> P a = true -> P b = true -> cmp a b <= 0) ->
  filter P (JS.sort cmp l) = filter P l.
Proof.
  induction l as [|x l IH]; intros Hle; [reflexivity|].
  assert (IH' : filter P (JS.sort cmp l) = filter P l).
  { apply IH. intros a b Ha Hb. apply Hle; now right. }
  simpl. destruct (P x) eqn:Px.
  - rewrite filter_sort_insert_in; [now rewrite IH'|exact Px|].
    intros y Hy Py. apply Hle; [now left| |exact Px|exact Py].
    right. now apply sort_In.
  - rewrite filter_sort_insert_out by exact Px. exact IH'.
Qed.

(** Neighbours come out in comparator order, provided the comparator never
    reports two elements each greater than the other. *)
Lemma sort_insert_sorted (x : A) l :
  (forall a b, 0 < cmp a b -> cmp b a <= 0) ->
  Sorted (fun a b => cmp a b <= 0) l ->
  Sorted (fun a b => cmp a b <= 0) (JS.sort_insert cmp x l).
Proof.
  intros Hanti. induction 1 as [|y l Hs IH Hhd]; simpl.
  - repeat constructor.
  - destruct (0 <? cmp x y) eqn:E.
    + apply Z.ltb_lt, Hanti in E. constructor; [exact IH|].
      destruct l as [|z l]; simpl.
      * now constructor.
      * destruct (0 <? cmp x z); constructor; [now inversion Hhd|exact E].
    + apply Z.ltb_ge in E. constructor; [now constructor|now constructor].
Qed.

Lemma sort_sorted l :
  (forall a b, 0 < cmp a b -> cmp b a <= 0) ->
  Sorted (fun a b => cmp a b <= 0) (JS.sort cmp l).
Proof.
  intros Hanti. induction l as [|x l IH]; simpl; [constructor|].
  now apply sort_insert_sorted.
Qed.

(** A comparator that never reports "greater" leaves the array as is. *)
Lemma sort_no_greater l :
  (forall a b, In a l -> In b l -> cmp a b <= 0) ->
  JS.sort cmp l = l.
Proof.
  intros Hle.
  pose proof (sort_stable (fun _ => true) l) as H.
  rewrite !filter_true in H.
  apply H. intros a b Ha Hb _ _. now apply Hle.
Qed.
End SortFacts.

(** ** Page counts *)

Lemma ceil_div_bounds (n r : Z) :
  0 < r ->
  r * (JS.ceil_div n r - 1) < n <= r * JS.ceil_div n r.
Proof.
  intros Hr. unfold JS.ceil_div.
  pose proof (Z.div_mod (- n) r) as Hdm.
  pose proof (Z.mod_pos_bound (- n) r Hr) as Hm.
  lia.
Qed.

Lemma ceil_div_0 (r : Z) : JS.ceil_div 0 r = 0.
Proof. reflexivity. Qed.

Lemma ceil_div_nonneg (n r : Z) : 0 <= n -> 0 < r -> 0 <= JS.ceil_div n r.
Proof.
  intros Hn Hr. pose proof (ceil_div_bounds n r Hr). nia.
Qed.

(** ** Cutting a list into pages *)

Section Pages.
Context {A : Type}.
Implicit Types l : list A.

Lemma firstn_plus (a b : nat) l :
  firstn (a + b) l = firstn a l ++ firstn b (skipn a l).
Proof.
  revert l; induction a as [|a IH]; intros l; [reflexivity|].
  destruct l as [|x l]; simpl.
  - now rewrite firstn_nil.
  - now rewrite IH.
Qed.

Lemma concat_pages (size k : nat) l :
  List.concat (map (fun p => firstn size (skipn (p * size) l)) (seq 0 k)) =
  firstn (k * size) l.
Proof.
  induction k as [|k IH]; [reflexivity|].
  rewrite seq_S, map_app, concat_app, IH. simpl.
  rewrite app_nil_r, (Nat.add_comm size), firstn_plus. reflexivity.
Qed.
End Pages.

End JSFacts.

(* ===================================================================== *)
(** * Facts about the store *)
(* ===================================================================== *)

Module StoreFacts.
Import Store.

Section StoreFacts.
Context {A : Type}.
Implicit Types (h : heap (A := A)) (a b : list A) (l d : loc).

Lemma lookup_bound h l a : nth_error h l = Some a -> (l < List.length h)%nat.
Proof. intros H. apply nth_error_Some. congruence. Qed.

Lemma lookup_alloc_old h d a b :
  nth_error h d = Some a -> nth_error (h ++ [b]) d = Some a.
Proof.
  intros H. rewrite nth_error_app1; [exact H|]. eapply lookup_bound; eauto.
Qed.

Lemma lookup_alloc_new h b : nth_error (h ++ [b]) (List.length h) = Some b.
Proof. rewrite nth_error_app2, Nat.sub_diag by lia. reflexivity. Qed.

Lemma lookup_update_same h l a b :
  nth_error h l = Some a -> nth_error (update l b h) l = Some b.
Proof.
  revert l; induction h as [|x h IH]; intros [|l] H; simpl in *;
    try discriminate; [reflexivity|now apply IH].
Qed.

Lemma lookup_update_other h l d b :
  l <> d -> nth_error (update l b h) d = nth_error h d.
Proof.
  revert l d; induction h as [|x h IH]; intros [|l] [|d] H; simpl;
    try reflexivity; try congruence.
  apply IH. congruence.
Qed.

(** What each array method does to the store. *)
Lemma arr_filter_run (p : A -> bool) h l a :
  nth_error h l = Some a ->
  arr_filter p l h = Some (List.length h, h ++ [filter p a]).
Proof. intros H. unfold arr_filter, bind, deref, alloc. now rewrite H. Qed.

Lemma arr_spread_run h l a :
  nth_error h l = Some a ->
  arr_spread l h = Some (List.length h, h ++ [a]).
Proof. intros H. unfold arr_spread, bind, deref, alloc. now rewrite H. Qed.

Lemma arr_slice_run (start end_ : Z) h l a :
  nth_error h l = Some a ->
  arr_slice start end_ l h = Some (List.length h, h ++ [JS.slice start end_ a]).
Proof. intros H. unfold arr_slice, bind, deref, alloc. now rewrite H. Qed.

Lemma arr_sort_run (cmp : A -> A -> Z) h l a :
  nth_error h l = Some a ->
  arr_sort cmp l h = Some (l, update l (JS.sort cmp a) h).
Proof.
  intros H. unfold arr_sort, bind, deref, assign, ret. rewrite H.
  apply lookup_bound, Nat.ltb_lt in H. now rewrite H.
Qed.

Lemma arr_length_run h l a :
  nth_error h l = Some a ->
  arr_length l h = Some (Z.of_nat (List.length a), h).
Proof. intros H. unfold arr_length, bind, deref, ret. now rewrite H. Qed.
End StoreFacts.

End StoreFacts.

(* ===================================================================== *)
(** * The table: filter, sort, paginate *)
(* ===================================================================== *)

Module DataTableFacts.
Import DataTable Design JSFacts StoreFacts.

Section Facts.
Context {N : JsNumber}.
Implicit Types (data : list record) (st : State) (props : Props).

(** ** Stage by stage *)

Lemma filteredData_default st data :
  filteredData defaultProps st data = filterStage (searchTerm st) data.
Proof. reflexivity. Qed.

Lemma sortedData_length props st data :
  List.length (sortedData props st data) =
  List.length (filteredData props st data).
Proof.
  unfold sortedData.
  destruct (sortable props); [|reflexivity].
  destruct (sortConfig st); [apply sort_length|reflexivity].
Qed.

Lemma paginatedData_nonneg props st data :
  0 <= page st -> 0 <= rowsPerPage st ->
  pagination props = true ->
  paginatedData props st data =
  sliceStage (page st) (rowsPerPage st) (sortedData props st data).
Proof.
  intros Hp Hr Hpg. unfold paginatedData, sliceStage. rewrite Hpg.
  rewrite <- (Z2Nat.id (page st * rowsPerPage st)) at 1 2 by lia.
  rewrite <- (Z2Nat.id (rowsPerPage st)) at 3 by lia.
  apply slice_nonneg.
Qed.

(** ** Search *)

Lemma matches_iff (term : string) (item : record) :
  matches term item = true <->
  exists v, In v (JS.values item) /\
    exists pre post,
      JS.toLowerCase (JS.toString v) =
      String.append pre (String.append (JS.toLowerCase term) post).
Proof.
  unfold matches. rewrite existsb_exists.
  split; intros [v [Hv H]]; exists v; (split; [exact Hv|]);
    now apply includes_iff.
Qed.

Lemma matches_empty (item : record) : matches "" item = hasField item.
Proof.
  unfold matches, hasField.
  destruct (JS.values item) as [|v vs]; [reflexivity|].
  simpl. now rewrite includes_empty.
Qed.

Lemma filteredData_empty_term data st :
  filteredData defaultProps (setSearchTerm "" st) data = filter hasField data.
Proof. unfold filteredData. simpl. apply filter_ext. exact matches_empty. Qed.

(** C2, as the table does it: a record is in the filtered result exactly
    when the lower-cased string form of one of its field values contains
    the lower-cased search text; with the empty search text the result is
    the input, in its order, without the records that have no field at
    all (for them [some] has no value to accept). *)
Theorem filter_correct data st :
  (forall item,
     In item (filteredData defaultProps st data) <->
     In item data /\
     exists v, In v (JS.values item) /\
       exists pre post,
         JS.toLowerCase (JS.toString v) =
         String.append pre
           (String.append (JS.toLowerCase (searchTerm st)) post))
  /\ filteredData defaultProps (setSearchTerm "" st) data
     = filter hasField data.
Proof.
  split.
  - intros item. rewrite filteredData_default. unfold filterStage.
    rewrite filter_In. now rewrite <- matches_iff.
  - apply filteredData_empty_term.
Qed.

(** When every record has a field, the empty search text keeps them all. *)
Lemma filter_empty_term data st :
  (forall item, In item data -> hasField item = true) ->
  filteredData defaultProps (setSearchTerm "" st) data = data.
Proof.
  intros H. rewrite filteredData_empty_term.
  induction data as [|x data IH]; [reflexivity|]. simpl.
  rewrite (H x (or_introl eq_refl)). f_equal. apply IH.
  intros item Hi. apply H. now right.
Qed.

Lemma filteredData_incl props st data item :
  In item (filteredData props st data) -> In item data.
Proof.
  unfold filteredData. destruct (searchable props); [|exact (fun H => H)].
  rewrite filter_In. tauto.
Qed.

(** ** Pagination *)

Lemma sortedData_setPage props st data (p : Z) :
  sortedData props (setPage p st) data = sortedData props st data.
Proof. reflexivity. Qed.

Lemma pageCount_bounds props st data :
  0 < rowsPerPage st ->
  rowsPerPage st * (pageCount props st data - 1)
    < Z.of_nat (List.length (filteredData props st data))
    <= rowsPerPage st * pageCount props st data.
Proof. intros Hr. now apply ceil_div_bounds. Qed.

Lemma pageCount_nonneg props st data :
  0 < rowsPerPage st -> 0 <= pageCount props st data.
Proof. intros Hr. apply ceil_div_nonneg; lia. Qed.

(** C4: at a positive page size, the pages 0 to [pageCount - 1] laid end
    to end are the filtered and sorted sequence; [pageCount] is the
    ceiling of the filtered count over the page size (the least number of
    pages that holds every record); an empty filtered collection has 0
    pages and an empty visible page. *)
Theorem pagination_complete data st :
  0 < rowsPerPage st ->
  List.concat
    (map (fun p => paginatedData defaultProps (setPage p st) data)
         (pageIndices (pageCount defaultProps st data)))
    = sortedData defaultProps st data
  /\ rowsPerPage st * (pageCount defaultProps st data - 1)
       < Z.of_nat (List.length (filteredData defaultProps st data))
       <= rowsPerPage st * pageCount defaultProps st data
  /\ (filteredData defaultProps st data = [] ->
      pageCount defaultProps st data = 0 /\
      paginatedData defaultProps st data = []).
Proof.
  intros Hr.
  pose proof (pageCount_bounds defaultProps st data Hr) as Hb.
  pose proof (pageCount_nonneg defaultProps st data Hr) as Hn.
  split; [|split].
  - unfold pageIndices. rewrite map_map.
    set (size := Z.to_nat (rowsPerPage st)).
    set (sorted := sortedData defaultProps st data).
    rewrite (map_ext _ (fun k => firstn size (skipn (k * size) sorted))).
    + rewrite concat_pages. apply firstn_all2.
      subst sorted. rewrite sortedData_length. subst size. nia.
    + intros k. unfold paginatedData. simpl pagination. cbv iota.
      rewrite sortedData_setPage. fold sorted. simpl page. simpl rowsPerPage.
      replace (Z.of_nat k * rowsPerPage st) with (Z.of_nat (k * size))
        by (subst size; nia).
      replace (rowsPerPage st) with (Z.of_nat size) at 1
        by (subst size; lia).
      apply slice_nonneg.
  - exact Hb.
  - intros He. unfold pageCount, paginatedData, sortedData.
    rewrite He. simpl.
    split; [reflexivity|].
    destruct (sortConfig st); simpl; apply slice_nil.
Qed.

(** ** Sorting *)

Lemma string_ltb_asym (s t : string) :
  String.ltb s t = true -> String.ltb t s = false.
Proof.
  unfold String.ltb. rewrite (String.compare_antisym s t).
  now destruct (String.compare t s).
Qed.

Lemma lt_asym (v w : JS.value) : JS.lt v w = true -> JS.lt w v = false.
Proof.
  unfold JS.lt.
  destruct v as [|b|n|s|l], w as [|b'|n'|s'|l']; simpl;
    try apply num_ltb_asym; apply string_ltb_asym.
Qed.

Lemma lt_irrefl (v : JS.value) : JS.lt v v = false.
Proof.
  destruct (JS.lt v v) eqn:E; [|reflexivity].
  now rewrite (lt_asym v v E) in E.
Qed.

(** The comparator is consistent in the sense [sort] needs to put any two
    neighbours in order: it never reports both [a] after [b] and [b] after
    [a]. *)
Lemma compareFn_antisym cfg (a b : record) :
  0 < compareFn cfg a b -> compareFn cfg b a <= 0.
Proof.
  unfold compareFn, JS.gt.
  destruct (JS.lt (JS.get a (key cfg)) (JS.get b (key cfg))) eqn:Eab;
    destruct (JS.lt (JS.get b (key cfg)) (JS.get a (key cfg))) eqn:Eba;
    destruct (direction cfg); simpl; try lia.
  all: now rewrite (lt_asym _ _ Eab) in Eba.
Qed.

(** With a sort key set, every record of the sorted sequence is followed by
    one the comparator does not put in front of it. *)
Lemma sortedData_sorted props st data cfg :
  sortable props = true -> sortConfig st = Some cfg ->
  Sorted (fun a b => compareFn cfg a b <= 0) (sortedData props st data).
Proof.
  intros Hs Hcfg. unfold sortedData. rewrite Hs, Hcfg.
  apply sort_sorted. apply compareFn_antisym.
Qed.

(** Records with the same value under the sort key compare as equal. *)
Lemma compareFn_tie cfg (a b : record) :
  JS.get a (key cfg) = JS.get b (key cfg) -> compareFn cfg a b = 0.
Proof.
  intros H. unfold compareFn, JS.gt. rewrite H.
  now rewrite lt_irrefl.
Qed.


Lemma get_absent (o : record) (k : string) :
  ~ In k (map fst o) -> JS.get o k = JS.VUndefined.
Proof.
  induction o as [|[k' v] o IH]; intros H; [reflexivity|]. simpl in *.
  destruct (String.eqb_spec k' k) as [->|Hne]; [tauto|].
  apply IH. tauto.
Qed.

(** C10: when no record has a field named by the sort key, the comparator
    returns 0 on every pair and the sorted sequence is the filtered
    sequence, in its order. *)
Theorem sort_by_absent_field props data st cfg :
  sortConfig st = Some cfg ->
  (forall item, In item data -> ~ In (key cfg) (map fst item)) ->
  sortedData props st data = filteredData props st data
  /\ (forall a b, In a data -> In b data -> compareFn cfg a b = 0).
Proof.
  intros Hcfg Habs.
  assert (Hzero : forall a b, In a data -> In b data -> compareFn cfg a b = 0).
  { intros a b Ha Hb. apply compareFn_tie.
    now rewrite !get_absent by auto. }
  split; [|exact Hzero].
  unfold sortedData. rewrite Hcfg.
  destruct (sortable props); [|reflexivity].
  apply sort_no_greater. intros a b Ha Hb.
  rewrite Hzero; [lia| |]; eauto using filteredData_incl.
Qed.

(** ** Event handlers *)

(** C6: on a table with the default props, a click on the header of the
    current sort key toggles the direction, a click on any other header
    (or the first click) sorts by that key ascending; the page, the page
    size and the search term stay as they are. *)
Theorem handleSort_spec st (k : string) :
  (forall d, sortConfig st = Some (mkSortConfig k d) ->
             sortConfig (handleSort defaultProps k st)
             = Some (mkSortConfig k (toggle d)))
  /\ (forall cfg, sortConfig st = Some cfg -> key cfg <> k ->
                  sortConfig (handleSort defaultProps k st)
                  = Some (mkSortConfig k asc))
  /\ (sortConfig st = None ->
      sortConfig (handleSort defaultProps k st) = Some (mkSortConfig k asc))
  /\ page (handleSort defaultProps k st) = page st
  /\ rowsPerPage (handleSort defaultProps k st) = rowsPerPage st
  /\ searchTerm (handleSort defaultProps k st) = searchTerm st.
Proof.
  unfold handleSort. simpl. repeat split.
  - intros d H. rewrite H. simpl. rewrite String.eqb_refl.
    now destruct d.
  - intros cfg H Hne. rewrite H.
    apply String.eqb_neq in Hne. now rewrite Hne.
  - intros H. now rewrite H.
Qed.

Lemma onSearchChange_page (text : string) st :
  page (onSearchChange text st) = page st.
Proof. reflexivity. Qed.

Lemma rowsPerPageOptions_pos (i : nat) (v : Z) :
  nth_error rowsPerPageOptions i = Some v -> 0 < v.
Proof.
  intros H. apply nth_error_In in H. simpl in H.
  repeat (destruct H as [<-|H]; [lia|]). contradiction.
Qed.

Lemma handle_rowsPerPage_pos props (pages : Z) (ev : Event) st :
  0 < rowsPerPage st -> 0 < rowsPerPage (handle props pages ev st).
Proof.
  intros Hr.
  destruct ev; simpl;
    unfold handleSort, onFirst, onPrevious, onNext, onLast, onPageNumber;
    repeat match goal with
      | |- context [if ?b then _ else _] => destruct b
      | |- context [match sortConfig ?s with _ => _ end] => destruct (sortConfig s)
      end; simpl; try assumption.
  destruct (nth_error rowsPerPageOptions option_index) eqn:E; simpl;
    [eapply rowsPerPageOptions_pos; eassumption|assumption].
Qed.

(** C7, as the table does it: the handler of the rows-per-page select
    checks nothing. It stores the size it is given, as given, and sets
    the page to 0, leaving search term and sort configuration alone; and
    the select offers positive sizes only, so no event on the table makes
    a positive page size non-positive. *)
Theorem onRowsPerPageChange_spec :
  (forall (v : Z) st,
     onRowsPerPageChange v st = mkState 0 v (searchTerm st) (sortConfig st))
  /\ (forall i v, nth_error rowsPerPageOptions i = Some v -> 0 < v)
  /\ (forall props (pages : Z) (ev : Event) st,
        0 < rowsPerPage st -> 0 < rowsPerPage (handle props pages ev st)).
Proof.
  split; [reflexivity|].
  split; [exact rowsPerPageOptions_pos|exact handle_rowsPerPage_pos].
Qed.

(** Every event keeps the view state well formed: the page index stays
    non-negative and the page size positive. *)
Lemma handle_wellFormed props (pages : Z) (ev : Event) st :
  wellFormed st -> wellFormed (handle props pages ev st).
Proof.
  intros [Hp Hr]. split.
  - destruct ev; simpl;
      unfold handleSort, onFirst, onPrevious, onNext, onLast, onPageNumber;
      repeat match goal with
        | |- context [if ?b then _ else _] => destruct b eqn:?
        | |- context [match ?o with Some _ => _ | None => _ end] => destruct o
        end; simpl; try assumption; try lia.
  - now apply handle_rowsPerPage_pos.
Qed.

Lemma run_wellFormed props data (evs : list Event) st :
  wellFormed st -> wellFormed (run props data evs st).
Proof.
  revert st; induction evs as [|ev evs IH]; intros st H; [exact H|].
  simpl. apply IH. now apply handle_wellFormed.
Qed.

Lemma initialState_wellFormed : wellFormed initialState.
Proof. unfold wellFormed; simpl; lia. Qed.

(** ** The caller's array *)

(** A render over the store succeeds, leaves the caller's array as it
    was, and yields references to the three arrays the render body
    names. *)
Lemma render_run props st (data : Store.loc) (h : Store.heap) (arr : list record) :
  nth_error h data = Some arr ->
  exists r h',
    render props st data h = Some (r, h')
    /\ nth_error h' data = Some arr
    /\ nth_error h' (filteredRef r) = Some (filteredData props st arr)
    /\ nth_error h' (sortedRef r) = Some (sortedData props st arr)
    /\ nth_error h' (paginatedRef r) = Some (paginatedData props st arr).
Proof.
  intros Hd. unfold render, filteredData, sortedData, paginatedData.
  (* filter *)
  assert (Hf : exists f h1,
    (if searchable props
     then Store.arr_filter (matches (searchTerm st)) data
     else Store.ret data) h = Some (f, h1)
    /\ nth_error h1 data = Some arr
    /\ nth_error h1 f = Some (filteredData props st arr)).
  { unfold filteredData. destruct (searchable props).
    - eexists _, _. rewrite (arr_filter_run _ _ _ _ Hd).
      split; [reflexivity|]. split.
      + now apply lookup_alloc_old.
      + apply lookup_alloc_new.
    - eexists _, _. split; [reflexivity|]. now split. }
  destruct Hf as (f & h1 & Hrun1 & Hd1 & Hf1).
  unfold filteredData in Hf1.
  (* sort *)
  assert (Hs : exists s h2,
    (match sortable props, sortConfig st with
     | true, Some cfg =>
         Store.bind (Store.arr_spread f)
                    (fun copy => Store.arr_sort (compareFn cfg) copy)
     | _, _ => Store.ret f
     end) h1 = Some (s, h2)
    /\ nth_error h2 data = Some arr
    /\ nth_error h2 f
       = Some (if searchable props
               then filter (matches (searchTerm st)) arr else arr)
    /\ nth_error h2 s =
       Some (match sortable props, sortConfig st with
             | true, Some cfg =>
                 JS.sort (compareFn cfg)
                   (if searchable props
                    then filter (matches (searchTerm st)) arr else arr)
             | _, _ =>
                 if searchable props
                 then filter (matches (searchTerm st)) arr else arr
             end)).
  { destruct (sortable props); [destruct (sortConfig st) as [cfg|]|].
    - unfold Store.bind at 1. rewrite (arr_spread_run _ _ _ Hf1).
      pose proof (lookup_alloc_new h1
        (if searchable props
         then filter (matches (searchTerm st)) arr else arr)) as Hnew.
      rewrite (arr_sort_run _ _ _ _ Hnew).
      pose proof (lookup_bound _ _ _ Hd1) as Bd.
      pose proof (lookup_bound _ _ _ Hf1) as Bf.
      eexists _, _. split; [reflexivity|]. repeat split.
      + rewrite lookup_update_other by lia. now apply lookup_alloc_old.
      + rewrite lookup_update_other by lia. now apply lookup_alloc_old.
      + eapply lookup_update_same. exact Hnew.
    - eexists _, _. split; [reflexivity|]. now repeat split.
    - eexists _, _. split; [reflexivity|]. now repeat split. }
  destruct Hs as (s & h2 & Hrun2 & Hd2 & Hf2 & Hs2).
  unfold Store.bind at 1. rewrite Hrun1.
  unfold Store.bind at 1. rewrite Hrun2.
  (* slice *)
  unfold Store.bind, Store.ret.
  destruct (pagination props).
  - rewrite (arr_slice_run _ _ _ _ _ Hs2).
    eexists _, _. split; [reflexivity|]. simpl. repeat split.
    + now apply lookup_alloc_old.
    + now apply lookup_alloc_old.
    + now apply lookup_alloc_old.
    + apply lookup_alloc_new.
  - eexists _, _. split; [reflexivity|]. simpl. now repeat split.
Qed.

(** C9: a browsing session over the store, whatever the props, the events
    and the state it starts from, runs to its end and leaves the caller's
    array with the elements it had, in the order they had; the state it
    ends in is the one the events produce over that array. *)
Theorem session_preserves_data props (data : Store.loc) (evs : list Event)
  st (h : Store.heap) (arr : list record) :
  nth_error h data = Some arr ->
  exists h',
    session props data evs st h = Some (run props arr evs st, h')
    /\ nth_error h' data = Some arr.
Proof.
  revert st h. induction evs as [|ev evs IH]; intros st h Hd.
  - destruct (render_run props st data h arr Hd) as (r & h' & Hr & Hd' & _).
    exists h'. simpl. unfold Store.bind. rewrite Hr. now split.
  - destruct (render_run props st data h arr Hd)
      as (r & h1 & Hr & Hd1 & Hf1 & _).
    destruct (IH (handle props (pageCount props st arr) ev st) h1 Hd1)
      as (h' & Hs & Hd').
    exists h'. split; [|exact Hd'].
    simpl. unfold Store.bind at 1. rewrite Hr.
    unfold Store.bind at 1. rewrite (arr_length_run _ _ _ Hf1).
    exact Hs.
Qed.
End Facts.


(** ** The table over the sample datasets *)

Section Samples.
Import IntNumber Sample.
Local Open Scope string_scope.

(** A record without fields does not survive the empty search text. *)
Lemma empty_search_drops_fieldless_record :
  let data : list record := [ [] ] in
  filteredData defaultProps (setSearchTerm "" initialState) data = []
  /\ filteredData defaultProps (setSearchTerm "" initialState) data <> data.
Proof. simpl. split; [reflexivity|discriminate]. Qed.

(** C3 on the 48 locomotives: three clicks on Next lead to page 3 of 5;
    typing a search term that one locomotive matches leaves the page at
    3 although a single page remains, and the table shows no row. *)
Theorem search_leaves_stale_page :
  let st := run defaultProps allLocomotives
              [ClickNext; ClickNext; ClickNext] initialState in
  let st' := handle defaultProps (pageCount defaultProps st allLocomotives)
               (SearchInput "MARC 7801") st in
  page st = 3
  /\ pageCount defaultProps st allLocomotives = 5
  /\ page st' = 3
  /\ List.length (filteredData defaultProps st' allLocomotives) = 1%nat
  /\ pageCount defaultProps st' allLocomotives = 1
  /\ paginatedData defaultProps st' allLocomotives = [].
Proof. vm_compute. repeat split. Qed.

(** The sibling handler, for the page size, does reset the page. *)
Lemma page_size_change_resets_page :
  let st := run defaultProps allLocomotives
              [ClickNext; ClickNext; ClickNext; SelectRowsPerPage 0]
              initialState in
  page st = 0 /\ rowsPerPage st = 5
  /\ pageCount defaultProps st allLocomotives = 10.
Proof. vm_compute. repeat split. Qed.

Lemma pagination_complete_witness :
  0 < rowsPerPage initialState
  /\ List.concat
       (map (fun p => paginatedData defaultProps (setPage p initialState)
                        allLocomotives)
            (pageIndices (pageCount defaultProps initialState allLocomotives)))
     = sortedData defaultProps initialState allLocomotives.
Proof.
  assert (H : 0 < rowsPerPage initialState) by (simpl; lia).
  split; [exact H|].
  exact (proj1 (pagination_complete allLocomotives initialState H)).
Defined.

(** The routes by number of runs: R1 stays in front of R3, which has as
    many runs, in both directions. *)
Lemma sort_directions_example :
  let by_runs d :=
    map (fun r => JS.toString (JS.get r "routeId"))
        (sortedData defaultProps
           (setSortConfig (mkSortConfig "totalRuns" d) initialState)
           trainRoutes) in
  by_runs asc = ["R2"; "R4"; "R1"; "R3"]
  /\ by_runs desc = ["R1"; "R3"; "R4"; "R2"].
Proof. split; reflexivity. Qed.

Lemma handleSort_spec_witness :
  let st := handleSort defaultProps "runs" (setPage 2 initialState) in
  sortConfig (handleSort defaultProps "runs" st)
  = Some (mkSortConfig "runs" desc)
  /\ page (handleSort defaultProps "runs" st) = 2.
Proof.
  set (st := handleSort defaultProps "runs" (setPage 2 initialState)).
  destruct (handleSort_spec st "runs") as (Hsame & _ & _ & Hpage & _).
  split; [exact (Hsame asc eq_refl)|exact Hpage].
Defined.

(** A page size of 0 is stored, not rejected. *)
Lemma nonpositive_page_size_is_stored :
  let st := mkState 3 10 "" None in
  onRowsPerPageChange 0 st = mkState 0 0 "" None
  /\ onRowsPerPageChange 0 st <> st.
Proof. simpl. split; [reflexivity|discriminate]. Qed.

Lemma session_preserves_data_witness :
  exists h',
    session defaultProps 0%nat
      [ClickHeader "runs"; ClickNext; SearchInput "MARC 78"]
      initialState [allLocomotives]
    = Some (run defaultProps allLocomotives
              [ClickHeader "runs"; ClickNext; SearchInput "MARC 78"]
              initialState, h')
    /\ nth_error h' 0%nat = Some allLocomotives.
Proof.
  exact (session_preserves_data defaultProps 0%nat
           [ClickHeader "runs"; ClickNext; SearchInput "MARC 78"]
           initialState [allLocomotives] allLocomotives eq_refl).
Defined.

(** Sorting the caller's array itself, without the copy, would change
    it. *)
Lemma arr_sort_overwrites :
  exists sorted,
    Store.arr_sort (compareFn (mkSortConfig "totalRuns" asc)) 0%nat
      [trainRoutes] = Some (0%nat, [sorted])
    /\ sorted <> trainRoutes.
Proof.
  eexists. split; [reflexivity|]. intros H.
  apply (f_equal (fun l => match l with r :: _ => twentyRuns r | [] => false end))
    in H.
  vm_compute in H. discriminate H.
Qed.

Lemma sort_by_absent_field_witness :
  let cfg := mkSortConfig "coordinates" asc in
  let st := setSortConfig cfg initialState in
  sortedData defaultProps st geographicData
  = filteredData defaultProps st geographicData.
Proof.
  refine (proj1 (sort_by_absent_field defaultProps geographicData
                   (setSortConfig (mkSortConfig "coordinates" asc) initialState)
                   (mkSortConfig "coordinates" asc) eq_refl _)).
  intros item Hi. simpl in Hi.
  repeat (destruct Hi as [<-|Hi]); try contradiction;
    simpl; intuition discriminate.
Defined.
End Samples.

End DataTableFacts.

(* ===================================================================== *)
(** * The distribution aggregation *)
(* ===================================================================== *)

Module AggregatorFacts.
Import Aggregator.

(** The literals of the source: the run-count buckets cover the 48
    locomotives, the initialization and enforcement buckets their overview
    totals (162 and 3); the percentage buckets start at 90% and hold 47. *)
Lemma chart_totals :
  total runCountDistribution = 48
  /\ total initsDistribution = 162
  /\ total enforcementsDistribution = 3
  /\ total ptcPercentageDistribution = 47.
Proof. repeat split. Qed.

Section DistributeFacts.
Context {R : Type}.
Variable classify : R -> string.
Implicit Types (records : list R) (bucketOrder : list string).

Lemma sum_counts_list_sum (bs : list Bucket) :
  sum_counts bs = list_sum (map count bs).
Proof. induction bs as [|b bs IH]; simpl; congruence. Qed.

Lemma list_sum_map_add {X : Type} (f g : X -> nat) (l : list X) :
  list_sum (map (fun x => f x + g x)%nat l) =
  (list_sum (map f l) + list_sum (map g l))%nat.
Proof. induction l as [|x l IH]; simpl; lia. Qed.

Lemma list_sum_absent (x : string) bucketOrder :
  ~ In x bucketOrder ->
  list_sum (map (fun y => if String.eqb x y then 1 else 0)%nat bucketOrder)
  = 0%nat.
Proof.
  induction bucketOrder as [|y l IH]; intros H; [reflexivity|]. simpl in *.
  destruct (String.eqb_spec x y) as [->|Hne]; [tauto|].
  apply IH. tauto.
Qed.

(** A label listed once in the bucket order is counted once. *)
Lemma list_sum_present (x : string) bucketOrder :
  NoDup bucketOrder -> In x bucketOrder ->
  list_sum (map (fun y => if String.eqb x y then 1 else 0)%nat bucketOrder)
  = 1%nat.
Proof.
  induction 1 as [|y l Hy Hnd IH]; intros Hin; [contradiction|]. simpl.
  destruct (String.eqb_spec x y) as [->|Hne].
  - now rewrite list_sum_absent.
  - destruct Hin as [->|Hin]; [congruence|]. now apply IH.
Qed.

Lemma find_unknown_none records bucketOrder :
  (forall r, In r records -> In (classify r) bucketOrder) ->
  find (fun r => negb (known bucketOrder (classify r))) records = None.
Proof.
  intros H. induction records as [|r rs IH]; [reflexivity|]. simpl.
  assert (Hk : known bucketOrder (classify r) = true).
  { unfold known. apply existsb_exists. exists (classify r).
    split; [apply H; now left|apply String.eqb_refl]. }
  rewrite Hk. simpl. apply IH. intros r' Hr'. apply H. now right.
Qed.

Lemma counts_total records bucketOrder :
  NoDup bucketOrder ->
  (forall r, In r records -> In (classify r) bucketOrder) ->
  list_sum
    (map (fun l =>
            List.length (filter (fun r => String.eqb (classify r) l) records))
         bucketOrder)
  = List.length records.
Proof.
  intros Hnd. induction records as [|r rs IH]; intros H.
  - simpl. clear. induction bucketOrder; simpl; auto.
  - rewrite (map_ext _
      (fun l => ((if String.eqb (classify r) l then 1 else 0)
                 + List.length
                     (filter (fun r0 => String.eqb (classify r0) l) rs))%nat)).
    + rewrite list_sum_map_add, IH by (intros r' Hr'; apply H; now right).
      rewrite list_sum_present; [reflexivity|exact Hnd|apply H; now left].
    + intros l. simpl. now destruct (String.eqb (classify r) l).
Qed.

(** A record whose label the bucket order does not list makes the call
    fail. *)
Lemma distribute_unknown records bucketOrder (r : R) :
  In r records -> ~ In (classify r) bucketOrder ->
  exists l, distribute records classify bucketOrder = inl (UnknownBucketLabel l).
Proof.
  intros Hr Hl. unfold distribute.
  destruct (find _ records) as [r'|] eqn:E; [now eexists|].
  exfalso. apply (find_none _ _ E) in Hr.
  apply negb_false_iff, existsb_exists in Hr.
  destruct Hr as (l & Hin & Heq). apply String.eqb_eq in Heq. congruence.
Qed.

(** C8, for a bucket order of distinct labels (the fixed bins or fixed
    categories of a distribution): when the classifier sends every record
    to a label of the bucket order, [distribute] succeeds with one bucket
    per label, in order, and the counts add up to the number of records. *)
Theorem distribute_total records bucketOrder :
  NoDup bucketOrder ->
  (forall r, In r records -> In (classify r) bucketOrder) ->
  exists bs,
    distribute records classify bucketOrder = inr bs
    /\ map label bs = bucketOrder
    /\ sum_counts bs = List.length records.
Proof.
  intros Hnd Htot. unfold distribute.
  rewrite find_unknown_none by exact Htot.
  eexists. split; [reflexivity|]. split.
  - rewrite map_map. simpl. apply map_id.
  - rewrite sum_counts_list_sum, map_map. simpl.
    now apply counts_total.
Qed.
End DistributeFacts.

Lemma distribute_total_witness :
  exists bs,
    distribute [1; 2; 3; 4; 5]%nat
      (fun n => if Nat.even n then "even" else "odd")%string
      ["odd"; "even"]%string = inr bs
    /\ map label bs = ["odd"; "even"]%string
    /\ sum_counts bs = 5%nat.
Proof.
  apply (distribute_total
           (fun n => if Nat.even n then "even" else "odd")%string
           [1; 2; 3; 4; 5]%nat ["odd"; "even"]%string).
  - repeat constructor; simpl; intuition discriminate.
  - intros r _. destruct (Nat.even r); simpl; auto.
Defined.

End AggregatorFacts.

(* ===================================================================== *)
(** * More about strings *)
(* ===================================================================== *)

Module StringFacts.

Lemma append_assoc (s t u : string) :
  String.append (String.append s t) u = String.append s (String.append t u).
Proof. induction s as [|c s IH]; simpl; [reflexivity|now rewrite IH]. Qed.

Lemma append_empty_r (s : string) : String.append s EmptyString = s.
Proof. induction s as [|c s IH]; simpl; [reflexivity|now rewrite IH]. Qed.

Lemma toLowerCase_append (s t : string) :
  JS.toLowerCase (String.append s t) =
  String.append (JS.toLowerCase s) (JS.toLowerCase t).
Proof. induction s as [|c s IH]; simpl; [reflexivity|now rewrite IH]. Qed.

Lemma lower_ascii_idempotent (c : ascii) :
  JS.lower_ascii (JS.lower_ascii c) = JS.lower_ascii c.
Proof. destruct c as [[] [] [] [] [] [] [] []]; reflexivity. Qed.

Lemma toLowerCase_idempotent (s : string) :
  JS.toLowerCase (JS.toLowerCase s) = JS.toLowerCase s.
Proof.
  induction s as [|c s IH]; simpl; [reflexivity|].
  now rewrite lower_ascii_idempotent, IH.
Qed.

Lemma includes_refl (s : string) : JS.includes s s = true.
Proof.
  apply JSFacts.includes_iff. exists EmptyString, EmptyString.
  simpl. now rewrite append_empty_r.
Qed.

Lemma includes_trans (s t u : string) :
  JS.includes s t = true -> JS.includes t u = true -> JS.includes s u = true.
Proof.
  rewrite !JSFacts.includes_iff.
  intros (p1 & q1 & ->) (p2 & q2 & ->).
  exists (String.append p1 p2), (String.append q2 q1).
  now rewrite !append_assoc.
Qed.

(** ** The order of strings *)

Lemma ascii_compare_refl (a : ascii) : Ascii.compare a a = Eq.
Proof. unfold Ascii.compare. apply N.compare_refl. Qed.

Lemma ascii_compare_lt_trans (a b c : ascii) :
  Ascii.compare a b = Lt -> Ascii.compare b c = Lt -> Ascii.compare a c = Lt.
Proof.
  unfold Ascii.compare. rewrite !N.compare_lt_iff. apply N.lt_trans.
Qed.

Lemma compare_refl (s : string) : String.compare s s = Eq.
Proof.
  induction s as [|a s IH]; simpl; [reflexivity|].
  now rewrite ascii_compare_refl.
Qed.

Lemma compare_lt_trans (s t u : string) :
  String.compare s t = Lt -> String.compare t u = Lt -> String.compare s u = Lt.
Proof.
  revert t u. induction s as [|a s IH]; intros [|b t] [|c u]; simpl;
    try discriminate; try reflexivity.
  destruct (Ascii.compare a b) eqn:Eab; try discriminate;
    destruct (Ascii.compare b c) eqn:Ebc; try discriminate; intros H1 H2.
  - apply Ascii.compare_eq_iff in Eab, Ebc. subst.
    rewrite ascii_compare_refl. eauto.
  - apply Ascii.compare_eq_iff in Eab. subst. now rewrite Ebc.
  - apply Ascii.compare_eq_iff in Ebc. subst. now rewrite Eab.
  - now rewrite (ascii_compare_lt_trans _ _ _ Eab Ebc).
Qed.

Lemma leb_refl (s : string) : String.leb s s = true.
Proof. unfold String.leb. now rewrite compare_refl. Qed.

Lemma leb_trans (s t u : string) :
  String.leb s t = true -> String.leb t u = true -> String.leb s u = true.
Proof.
  unfold String.leb.
  destruct (String.compare s t) eqn:E1; try discriminate;
    destruct (String.compare t u) eqn:E2; try discriminate; intros _ _.
  - apply String.compare_eq_iff in E1, E2. subst. now rewrite compare_refl.
  - apply String.compare_eq_iff in E1. subst. now rewrite E2.
  - apply String.compare_eq_iff in E2. subst. now rewrite E1.
  - now rewrite (compare_lt_trans _ _ _ E1 E2).
Qed.

(** [t < s] is false exactly when [s <= t]. *)
Lemma ltb_false_leb (s t : string) :
  String.ltb t s = false <-> String.leb s t = true.
Proof.
  unfold String.ltb, String.leb. rewrite (String.compare_antisym s t).
  destruct (String.compare t s); simpl; split; congruence.
Qed.

End StringFacts.

(* ===================================================================== *)
(** * More about the table *)
(* ===================================================================== *)

Module TableMore.
Import DataTable Design JSFacts StoreFacts StringFacts TableText.

Section SliceMore.
Context {A : Type}.
Implicit Types l : list A.

Lemma In_firstn (n : nat) l (x : A) : In x (firstn n l) -> In x l.
Proof.
  intros H. rewrite <- (firstn_skipn n l). apply in_or_app. now left.
Qed.

Lemma In_skipn (n : nat) l (x : A) : In x (skipn n l) -> In x l.
Proof.
  intros H. rewrite <- (firstn_skipn n l). apply in_or_app. now right.
Qed.

Lemma In_slice (start end_ : Z) l (x : A) :
  In x (JS.slice start end_ l) -> In x l.
Proof. unfold JS.slice. intros H. eapply In_skipn, In_firstn, H. Qed.

Lemma slice_length_nonneg (start end_ : Z) l :
  0 <= start -> 0 <= end_ ->
  Z.of_nat (List.length (JS.slice start end_ l)) =
  Z.max 0 (Z.min end_ (Z.of_nat (List.length l))
           - Z.min start (Z.of_nat (List.length l))).
Proof.
  intros Hs He. unfold JS.slice, JS.slice_index.
  rewrite length_firstn, length_skipn.
  destruct (start <? 0) eqn:E1; [apply Z.ltb_lt in E1; lia|].
  destruct (end_ <? 0) eqn:E2; [apply Z.ltb_lt in E2; lia|].
  lia.
Qed.
End SliceMore.

Section More.
Context {N : JsNumber}.
Implicit Types (data : list record) (st : State) (props : Props).

(** ** Search *)

Lemma matches_narrow (t t' : string) (item : record) :
  JS.includes (JS.toLowerCase t') (JS.toLowerCase t) = true ->
  matches t' item = true -> matches t item = true.
Proof.
  intros Hinc. unfold matches. rewrite !existsb_exists.
  intros (v & Hv & H). exists v. split; [exact Hv|].
  eapply includes_trans; eassumption.
Qed.

Lemma filter_filter_narrow {X : Type} (f g : X -> bool) (l : list X) :
  (forall x, f x = true -> g x = true) ->
  filter f (filter g l) = filter f l.
Proof.
  intros H. induction l as [|x l IH]; [reflexivity|]. simpl.
  destruct (g x) eqn:Eg; simpl.
  - now rewrite IH.
  - destruct (f x) eqn:Ef; [|exact IH].
    rewrite (H x Ef) in Eg. discriminate.
Qed.

(** X1: a longer search term narrows the result. For ASCII text (where
    lower-casing works letter by letter), whatever is put before and after
    the term, the rows found for the longer term are the rows found for the
    shorter one, filtered again, in the same order. *)
Theorem search_refines (pre t post : string) st data :
  Design.isAscii pre = true ->
  Design.isAscii t = true ->
  Design.isAscii post = true ->
  let t' := String.append pre (String.append t post) in
  filteredData defaultProps (setSearchTerm t' st) data =
  filter (matches t')
         (filteredData defaultProps (setSearchTerm t st) data).
Proof.
  intros _ _ _ t'. unfold filteredData. simpl.
  symmetry. apply filter_filter_narrow. intros item.
  apply matches_narrow. subst t'.
  rewrite !toLowerCase_append. apply includes_iff.
  now exists (JS.toLowerCase pre), (JS.toLowerCase post).
Qed.

(** X2: the search does not look at the case of the search term: a term
    and its lower-cased form find the same rows. *)
Theorem search_ignores_term_case (t : string) props st data :
  filteredData props (setSearchTerm (JS.toLowerCase t) st) data =
  filteredData props (setSearchTerm t st) data.
Proof.
  unfold filteredData, matches. simpl.
  now rewrite toLowerCase_idempotent.
Qed.

(** ** Sorting *)

Lemma sorted_permutes_filtered props st data :
  Permutation (filteredData props st data) (sortedData props st data).
Proof.
  unfold sortedData.
  destruct (sortable props); [|reflexivity].
  destruct (sortConfig st); [apply sort_perm|reflexivity].
Qed.

(** X3: sorting only reorders: the sorted sequence holds the records of
    the filtered sequence, each as often as there. *)
Theorem sortedData_permutation props st data :
  Permutation (filteredData props st data) (sortedData props st data).
Proof. apply sorted_permutes_filtered. Qed.

(** ** The rows shown *)

(** X5: the table never shows a row that is not in the data, nor, with
    the search box present, one that does not match the search term. *)
Theorem visible_rows_match props st data (item : record) :
  In item (paginatedData props st data) ->
  In item data
  /\ (searchable props = true -> matches (searchTerm st) item = true).
Proof.
  intros H.
  assert (Hs : In item (sortedData props st data)).
  { unfold paginatedData in H. destruct (pagination props); [|exact H].
    eapply In_slice, H. }
  assert (Hf : In item (filteredData props st data)).
  { eapply Permutation_in; [symmetry; apply sorted_permutes_filtered|exact Hs]. }
  unfold filteredData in Hf. destruct (searchable props).
  - apply filter_In in Hf. tauto.
  - split; [exact Hf|discriminate].
Qed.

(** X6: the "Showing a to b of n results" line counts the rows of the
    page: with a non-negative page index and page size the page holds
    [b - a + 1] rows, and no row when that number is negative (a page
    past the end). *)
Theorem showing_counts_rows props st data :
  pagination props = true ->
  0 <= page st -> 0 <= rowsPerPage st ->
  Z.of_nat (List.length (paginatedData props st data)) =
  Z.max 0 (showingTo props st data - showingFrom st + 1).
Proof.
  intros Hp Hpage Hr. unfold paginatedData, showingTo, showingFrom.
  rewrite Hp, slice_length_nonneg by nia.
  rewrite DataTableFacts.sortedData_length.
  set (n := Z.of_nat (List.length (filteredData props st data))).
  assert (0 <= n) by (subst n; lia).
  replace ((page st + 1) * rowsPerPage st)
    with (page st * rowsPerPage st + rowsPerPage st) by ring.
  set (x := page st * rowsPerPage st). assert (0 <= x) by (subst x; nia).
  lia.
Qed.

(** ** The pager *)

Lemma pageCount_setPage props st data (p : Z) :
  pageCount props (setPage p st) data = pageCount props st data.
Proof. reflexivity. Qed.

Lemma pageCount_handleSort props st data (k : string) :
  pageCount props (handleSort props k st) data = pageCount props st data.
Proof.
  unfold handleSort. destruct (negb (sortable props)); reflexivity.
Qed.

Lemma inRange_setPage props st data (p : Z) :
  0 <= p <= Z.max 0 (pageCount props st data - 1) ->
  inRange props (setPage p st) data.
Proof. intros H. unfold inRange. now rewrite pageCount_setPage. Qed.

Lemma handle_keeps_range props st data (ev : Event) :
  (forall text, ev <> SearchInput text) ->
  inRange props st data ->
  inRange props (handle props (pageCount props st data) ev st) data.
Proof.
  intros Hev Hin. pose proof Hin as [H0 H1].
  destruct ev as [text|k|i| | |i| |]; simpl.
  - now elim (Hev text).
  - unfold inRange. rewrite pageCount_handleSort.
    unfold handleSort. now destruct (negb (sortable props)).
  - destruct (pagination props); [|exact Hin].
    destruct (nth_error rowsPerPageOptions i); [|exact Hin].
    unfold inRange. simpl. lia.
  - destruct (pagination props); [|exact Hin]. unfold onFirst.
    destruct (page st =? 0); [exact Hin|]. apply inRange_setPage. lia.
  - destruct (pagination props); [|exact Hin]. unfold onPrevious.
    destruct (page st =? 0); [exact Hin|]. apply inRange_setPage. lia.
  - destruct (pagination props); [|exact Hin]. unfold onPageNumber.
    destruct ((0 <=? i) && (i <? Z.min 5 (pageCount props st data)))%bool;
      [|exact Hin].
    destruct ((page st - 2 + i <? 0)
              || (pageCount props st data <=? page st - 2 + i))%bool eqn:E;
      [exact Hin|].
    apply orb_false_iff in E. destruct E as [E1 E2].
    apply Z.ltb_ge in E1. apply Z.leb_gt in E2.
    apply inRange_setPage. lia.
  - destruct (pagination props); [|exact Hin]. unfold onNext.
    destruct (pageCount props st data - 1 <=? page st) eqn:E; [exact Hin|].
    apply Z.leb_gt in E. apply inRange_setPage. lia.
  - destruct (pagination props); [|exact Hin]. unfold onLast.
    destruct (pageCount props st data - 1 <=? page st) eqn:E; [exact Hin|].
    apply Z.leb_gt in E. apply inRange_setPage. lia.
Qed.

(** X7: typing in the search box is the only thing that can leave the
    table on a page that does not exist. From a state with a positive page
    size whose page index points at a page of the filtered data, every
    other event (a header click, a page size choice, any pager button)
    leads to such a state again. *)
Theorem only_search_leaves_range props st data (ev : Event) :
  0 < rowsPerPage st ->
  (forall text, ev <> SearchInput text) ->
  inRange props st data ->
  0 < rowsPerPage (handle props (pageCount props st data) ev st)
  /\ inRange props (handle props (pageCount props st data) ev st) data.
Proof.
  intros Hr Hev Hin. split.
  - now apply DataTableFacts.handle_rowsPerPage_pos.
  - now apply handle_keeps_range.
Qed.

(** X8: Previous undoes Next. On a page that is not the last one, a click
    on Next followed by a click on Previous gives back the state the table
    was in. *)
Theorem previous_undoes_next (pages : Z) st :
  0 <= page st -> page st < pages - 1 ->
  onPrevious (onNext pages st) = st.
Proof.
  intros H0 H1. unfold onNext.
  replace (pages - 1 <=? page st) with false by (symmetry; apply Z.leb_gt; lia).
  unfold onPrevious. simpl.
  replace (Z.min (pages - 1) (page st + 1)) with (page st + 1) by lia.
  replace (page st + 1 =? 0) with false by (symmetry; apply Z.eqb_neq; lia).
  unfold setPage. simpl.
  replace (Z.max 0 (page st + 1 - 1)) with (page st) by lia.
  now destruct st.
Qed.

Lemma run_app props data (evs evs' : list Event) st :
  run props data (evs ++ evs') st = run props data evs' (run props data evs st).
Proof.
  revert st; induction evs as [|ev evs IH]; intros st; [reflexivity|].
  simpl. apply IH.
Qed.

(** X9: clicking Next again and again walks through the pages one by one
    and stops at the last: with a positive page size, after [k] clicks from
    a page of the filtered data the table is [k] pages further, or on the
    last page if there are fewer than [k] pages left; search term, sort
    order and page size are as before. *)
Theorem next_walks_pages props st data (k : nat) :
  pagination props = true ->
  0 < rowsPerPage st ->
  inRange props st data ->
  run props data (repeat ClickNext k) st =
  setPage (Z.min (page st + Z.of_nat k)
                 (Z.max 0 (pageCount props st data - 1))) st.
Proof.
  intros Hp Hr. revert st Hr. induction k as [|k IH]; intros st Hr Hin.
  - simpl. pose proof Hin as [H0 H1].
    replace (Z.min (page st + 0) _) with (page st) by lia.
    now destruct st.
  - pose proof Hin as [H0 H1].
    cbn [repeat run handle]. rewrite Hp.
    rewrite IH.
    + unfold onNext.
      destruct (pageCount props st data - 1 <=? page st) eqn:E.
      * apply Z.leb_le in E. f_equal. lia.
      * apply Z.leb_gt in E. rewrite pageCount_setPage.
        unfold setPage. simpl. f_equal. lia.
    + pose proof (DataTableFacts.handle_rowsPerPage_pos props
                    (pageCount props st data) ClickNext st Hr) as H.
      simpl in H. now rewrite Hp in H.
    + pose proof (handle_keeps_range props st data ClickNext) as H.
      simpl in H. rewrite Hp in H. apply H; [discriminate|exact Hin].
Qed.

(** X10: a numbered button either does nothing or leads to a page that
    exists, at most two pages away from the current one. *)
Theorem page_number_lands_near (pages i : Z) st :
  onPageNumber pages i st = st
  \/ (0 <= page (onPageNumber pages i st) < pages
      /\ page st - 2 <= page (onPageNumber pages i st) <= page st + 2).
Proof.
  unfold onPageNumber.
  destruct ((0 <=? i) && (i <? Z.min 5 pages))%bool eqn:Ei; [|now left].
  destruct ((page st - 2 + i <? 0) || (pages <=? page st - 2 + i))%bool eqn:E;
    [now left|right].
  apply andb_true_iff in Ei. destruct Ei as [Ei1 Ei2].
  apply Z.leb_le in Ei1. apply Z.ltb_lt in Ei2.
  apply orb_false_iff in E. destruct E as [E1 E2].
  apply Z.ltb_ge in E1. apply Z.leb_gt in E2.
  simpl. lia.
Qed.


(** X12: sorting cannot be switched off. Once a sort key is set, no
    sequence of events brings the table back to the unsorted order of the
    data. *)
Theorem sort_is_never_cleared props data (evs : list Event) st :
  sortConfig st <> None ->
  sortConfig (run props data evs st) <> None.
Proof.
  revert st. induction evs as [|ev evs IH]; intros st H; [exact H|].
  simpl. apply IH.
  destruct ev; simpl;
    unfold handleSort, onFirst, onPrevious, onNext, onLast, onPageNumber;
    repeat match goal with
      | |- context [if ?b then _ else _] => destruct b
      | |- context [match nth_error ?l ?i with _ => _ end] =>
          destruct (nth_error l i)
      end; simpl; try exact H; discriminate.
Qed.

(** ** Sorting by a column of strings *)

Lemma StronglySorted_of_Sorted {X : Type} (R : X -> X -> Prop) (P : X -> Prop)
  (l : list X) :
  (forall a b c, P a -> P b -> P c -> R a b -> R b c -> R a c) ->
  Forall P l -> Sorted R l -> StronglySorted R l.
Proof.
  intros Htrans HP Hs. induction Hs as [|a l Hs IH Hhd]; [constructor|].
  inversion HP as [|? ? Pa Pl]; subst.
  specialize (IH Pl). constructor; [exact IH|].
  destruct l as [|b l]; [constructor|].
  apply HdRel_inv in Hhd.
  apply StronglySorted_inv in IH. destruct IH as [_ Hb].
  inversion Pl as [|? ? Pb Pl']; subst.
  constructor; [exact Hhd|].
  rewrite Forall_forall in *. intros c Hc.
  eapply (Htrans a b c); eauto.
Qed.

Lemma StronglySorted_weaken {X : Type} (R R' : X -> X -> Prop) (l : list X) :
  (forall a b, In a l -> In b l -> R a b -> R' a b) ->
  StronglySorted R l -> StronglySorted R' l.
Proof.
  intros H Hs. induction Hs as [|a l Hs IH Hall]; [constructor|].
  constructor.
  - apply IH. intros x y Hx Hy. apply H; now right.
  - rewrite Forall_forall in *. intros b Hb.
    apply H; [now left|now right|now apply Hall].
Qed.

Lemma compareFn_strings (k : string) (d : Direction) (a b : record)
  (s t : string) :
  JS.get a k = JS.VStr s -> JS.get b k = JS.VStr t ->
  compareFn (mkSortConfig k d) a b <= 0 <-> inOrder d s t.
Proof.
  intros Ha Hb. unfold compareFn, JS.gt, inOrder. simpl. rewrite Ha, Hb.
  unfold JS.lt. simpl.
  destruct (String.ltb s t) eqn:Est; destruct (String.ltb t s) eqn:Ets.
  - rewrite (DataTableFacts.string_ltb_asym _ _ Est) in Ets. discriminate.
  - apply ltb_false_leb in Ets.
    assert (Hn : String.leb t s = false).
    { destruct (String.leb t s) eqn:E; [|reflexivity].
      apply ltb_false_leb in E. congruence. }
    destruct d; simpl; split; intros; try lia; congruence.
  - apply ltb_false_leb in Est.
    assert (Hn : String.leb s t = false).
    { destruct (String.leb s t) eqn:E; [|reflexivity].
      apply ltb_false_leb in E. congruence. }
    destruct d; simpl; split; intros; try lia; congruence.
  - apply ltb_false_leb in Est, Ets.
    destruct d; simpl; split; intros; try lia; assumption.
Qed.

Lemma inOrder_trans (d : Direction) (s t u : string) :
  inOrder d s t -> inOrder d t u -> inOrder d s u.
Proof.
  unfold inOrder. destruct (Direction_eqb d asc); intros H1 H2;
    eapply leb_trans; eassumption.
Qed.

(** X4: sorting by a column that holds a string in every record puts the
    whole sequence in order: ascending, no record is followed, however far
    behind, by one whose string is smaller by code units; descending, by
    none whose string is greater. *)
Theorem sorted_by_string_column props st data (k : string) (d : Direction) :
  sortable props = true ->
  sortConfig st = Some (mkSortConfig k d) ->
  (forall r, In r data -> exists s, JS.get r k = JS.VStr s) ->
  StronglySorted
    (fun a b => inOrder d (JS.toString (JS.get a k)) (JS.toString (JS.get b k)))
    (sortedData props st data).
Proof.
  intros Hs Hcfg Hstr.
  set (P := fun r : record => exists s, JS.get r k = JS.VStr s).
  assert (HP : Forall P (sortedData props st data)).
  { apply Forall_forall. intros r Hr. apply Hstr.
    eapply DataTableFacts.filteredData_incl.
    eapply Permutation_in; [symmetry; apply sorted_permutes_filtered|exact Hr]. }
  apply (StronglySorted_weaken
           (fun a b => compareFn (mkSortConfig k d) a b <= 0)).
  - intros a b Ha Hb Hle.
    rewrite Forall_forall in HP.
    destruct (HP a Ha) as [s Es]. destruct (HP b Hb) as [t Et].
    rewrite Es, Et. simpl. now apply (compareFn_strings k d a b s t Es Et).
  - apply (StronglySorted_of_Sorted _ P).
    + intros a b c [s Es] [t Et] [u Eu] H1 H2.
      apply (compareFn_strings k d a c s u Es Eu).
      apply (compareFn_strings k d a b s t Es Et) in H1.
      apply (compareFn_strings k d b c t u Et Eu) in H2.
      eapply inOrder_trans; eassumption.
    + exact HP.
    + now apply DataTableFacts.sortedData_sorted.
Qed.

(** ** Cells *)

Lemma get_In_values (item : record) (k : string) :
  JS.get item k <> JS.VUndefined -> In (JS.get item k) (JS.values item).
Proof.
  induction item as [|[k' v] item IH]; simpl; [congruence|].
  destruct (String.eqb k' k); [now left|]. intros H. right. now apply IH.
Qed.

(** X13: what a cell without [render] prints can be searched for: when
    the column key is one of the record's own fields and the cell is not
    empty, typing its text into the search box keeps the row. *)
Theorem cell_text_is_searchable (num_truthy : num -> bool) (item : record)
  (columnKey : string) :
  In columnKey (map fst item) ->
  cellText num_truthy item columnKey <> EmptyString ->
  matches (cellText num_truthy item columnKey) item = true.
Proof.
  unfold cellText. intros _ Hne.
  destruct (truthy num_truthy (JS.get item columnKey)) eqn:Et;
    [|now elim Hne].
  unfold matches. apply existsb_exists.
  exists (JS.get item columnKey). split.
  - apply get_In_values. intros Hu. rewrite Hu in Et. discriminate.
  - apply includes_refl.
Qed.

(** ** The last page *)

Lemma last_skipn {X : Type} (k : nat) (l : list X) (d : X) :
  (k < List.length l)%nat -> last (skipn k l) d = last l d.
Proof.
  revert l. induction k as [|k IH]; intros l H; [reflexivity|].
  destruct l as [|x l]; [simpl in H; lia|].
  simpl in H. rewrite skipn_cons, IH by lia.
  destruct l; [simpl in H; lia|reflexivity].
Qed.

Lemma onLast_page props st data :
  inRange props st data ->
  1 <= pageCount props st data ->
  page (onLast (pageCount props st data) st) = pageCount props st data - 1.
Proof.
  intros [H0 H1] Hpc. unfold onLast.
  destruct (pageCount props st data - 1 <=? page st) eqn:E; [|reflexivity].
  apply Z.leb_le in E. lia.
Qed.

(** X21: the Last button shows the end of the data. With rows to show and
    a positive page size, the page the table is on after a click on Last
    (or was on already, the button being disabled) is not empty and ends
    with the last record of the filtered and sorted sequence. *)
Theorem last_button_shows_last_record props st data (d : record) :
  pagination props = true ->
  0 < rowsPerPage st ->
  inRange props st data ->
  filteredData props st data <> [] ->
  let st' := onLast (pageCount props st data) st in
  paginatedData props st' data <> []
  /\ last (paginatedData props st' data) d = last (sortedData props st data) d.
Proof.
  intros Hp Hr Hin Hne st'.
  pose proof (DataTableFacts.pageCount_bounds props st data Hr) as Hb.
  set (n := List.length (filteredData props st data)) in *.
  assert (Hn : (0 < n)%nat).
  { subst n. destruct (filteredData props st data); [congruence|simpl; lia]. }
  assert (Hpc : 1 <= pageCount props st data) by nia.
  assert (Hpage : page st' = pageCount props st data - 1)
    by (now apply onLast_page).
  assert (Hrpp : rowsPerPage st' = rowsPerPage st).
  { subst st'. unfold onLast. now destruct (_ <=? _). }
  assert (Hsorted : sortedData props st' data = sortedData props st data).
  { subst st'. unfold onLast. now destruct (_ <=? _). }
  rewrite DataTableFacts.paginatedData_nonneg by (rewrite ?Hpage, ?Hrpp; lia || exact Hp).
  unfold sliceStage. rewrite Hpage, Hrpp, Hsorted.
  set (sorted := sortedData props st data).
  assert (Hlen : List.length sorted = n)
    by (subst sorted n; apply DataTableFacts.sortedData_length).
  set (k := Z.to_nat ((pageCount props st data - 1) * rowsPerPage st)).
  assert (Hk : (k < n)%nat) by (subst k; nia).
  rewrite firstn_all2 by (rewrite length_skipn; subst k; nia).
  split.
  - intros He. apply (f_equal (@List.length _)) in He.
    rewrite length_skipn in He. simpl in He. lia.
  - apply last_skipn. lia.
Qed.
End More.

End TableMore.

(* ===================================================================== *)
(** * The sort stage *)
(* ===================================================================== *)

Module SortedView.
Import DataTable Design JSFacts StringFacts TableText.

(** ** Only one stable sorted arrangement *)

Section Unique.
Context {A : Type}.
Variable prec : A -> A -> bool.
Hypothesis prec_irrefl : forall a, prec a a = false.

(** Two arrangements of the same elements, both in order and both keeping
    every class of tied elements in the same sequence, are equal. *)
Lemma stable_sorted_unique (l1 l2 : list A) :
  Permutation l1 l2 ->
  StronglySorted (fun a b => prec b a = false) l1 ->
  StronglySorted (fun a b => prec b a = false) l2 ->
  (forall x, In x l1 ->
     filter (fun y => negb (prec x y) && negb (prec y x))%bool l1 =
     filter (fun y => negb (prec x y) && negb (prec y x))%bool l2) ->
  l1 = l2.
Proof.
  revert l2. induction l1 as [|a l1 IH]; intros l2 Hperm S1 S2 Hf.
  - now apply Permutation_nil in Hperm.
  - destruct l2 as [|b l2].
    { symmetry in Hperm. now apply Permutation_nil in Hperm. }
    apply StronglySorted_inv in S1. destruct S1 as [S1 F1].
    apply StronglySorted_inv in S2. destruct S2 as [S2 F2].
    rewrite Forall_forall in F1, F2.
    assert (Hba : prec b a = false).
    { assert (Hin : In b (a :: l1))
        by (eapply Permutation_in; [symmetry; exact Hperm|now left]).
      destruct Hin as [<-|Hin]; [apply prec_irrefl|now apply F1]. }
    assert (Hab : prec a b = false).
    { assert (Hin : In a (b :: l2))
        by (eapply Permutation_in; [exact Hperm|now left]).
      destruct Hin as [<-|Hin]; [apply prec_irrefl|now apply F2]. }
    assert (Heq : a = b).
    { pose proof (Hf a (or_introl eq_refl)) as H. simpl in H.
      rewrite prec_irrefl, Hab, Hba in H. simpl in H. now injection H. }
    subst b. f_equal. apply IH.
    + eapply Permutation_cons_inv. exact Hperm.
    + exact S1.
    + exact S2.
    + intros x Hx. pose proof (Hf x (or_intror Hx)) as H. simpl in H.
      destruct (negb (prec x a) && negb (prec a x))%bool;
        [now injection H|exact H].
Qed.
End Unique.

Section Sorting.
Context {N : JsNumber}.
Implicit Types (data : list record) (st : State) (props : Props).

(** ** The design's ordering and the comparator *)

Lemma lexBefore_ltb (s t : string) : lexBefore s t = String.ltb s t.
Proof.
  unfold String.ltb. revert t.
  induction s as [|a s IH]; intros [|b t]; simpl; try reflexivity.
  unfold Ascii.compare, nat_of_ascii.
  rewrite (N2Nat.inj_compare (N_of_ascii a) (N_of_ascii b)).
  destruct (Nat.compare_spec (N.to_nat (N_of_ascii a))
                             (N.to_nat (N_of_ascii b))) as [E|E|E].
  - rewrite E, Nat.ltb_irrefl, Nat.eqb_refl. apply IH.
  - apply Nat.ltb_lt in E. now rewrite E.
  - replace (_ <? _)%nat with false by (symmetry; apply Nat.ltb_ge; lia).
    replace (_ =? _)%nat with false by (symmetry; apply Nat.eqb_neq; lia).
    reflexivity.
Qed.

Lemma valueBefore_strings (s t : string) :
  valueBefore (JS.VStr s) (JS.VStr t) = JS.lt (JS.VStr s) (JS.VStr t).
Proof. simpl. apply lexBefore_ltb. Qed.

Lemma valueBefore_numbers (a b : num) :
  valueBefore (JS.VNum a) (JS.VNum b) = JS.lt (JS.VNum a) (JS.VNum b).
Proof. reflexivity. Qed.



(** On a column the design can order, its ordering is the [<] of the
    comparator, and the comparator is consistent. *)
Lemma sortable_lt (k : string) (l : list record) (a b : record) :
  sortableColumn k l -> In a l -> In b l ->
  valueBefore (JS.get a k) (JS.get b k) = JS.lt (JS.get a k) (JS.get b k).
Proof.
  intros [Hs|[Hn _]] Ha Hb.
  - destruct (Hs a Ha) as [s ->]. destruct (Hs b Hb) as [t ->].
    apply valueBefore_strings.
  - destruct (Hn a Ha) as [x ->]. destruct (Hn b Hb) as [y ->].
    apply valueBefore_numbers.
Qed.

Lemma string_ltb_consistent (s t u : string) :
  String.ltb s u = true -> String.ltb s t = true \/ String.ltb t u = true.
Proof.
  intros Hsu.
  destruct (String.ltb s t) eqn:Est; [now left|right].
  destruct (String.ltb t u) eqn:Etu; [reflexivity|].
  apply ltb_false_leb in Est, Etu.
  assert (H : String.leb u s = true) by (eapply leb_trans; eassumption).
  apply ltb_false_leb in H. congruence.
Qed.

Lemma sortable_consistent (k : string) (l : list record) :
  sortableColumn k l -> consistentColumn k l.
Proof.
  intros Hsort a b c Ha Hb Hc.
  rewrite <- !(sortable_lt k l) by assumption.
  destruct Hsort as [Hs|[_ Hn]].
  - destruct (Hs a Ha) as [s ->]. destruct (Hs b Hb) as [t ->].
    destruct (Hs c Hc) as [u ->]. simpl. rewrite !lexBefore_ltb.
    apply string_ltb_consistent.
  - now apply Hn.
Qed.

(** A column of strings is consistent. *)
Lemma string_column_consistent (k : string) (l : list record) :
  (forall r, In r l -> exists s, JS.get r k = JS.VStr s) ->
  consistentColumn k l.
Proof. intros H. apply sortable_consistent. now left. Qed.

(** What the comparator says, in terms of [<]. *)
Lemma compareFn_le cfg (a b : record) :
  compareFn cfg a b <= 0 <->
  match direction cfg with
  | asc => JS.lt (JS.get b (key cfg)) (JS.get a (key cfg)) = false
  | desc => JS.lt (JS.get a (key cfg)) (JS.get b (key cfg)) = false
  end.
Proof.
  unfold compareFn, JS.gt.
  destruct (JS.lt (JS.get a (key cfg)) (JS.get b (key cfg))) eqn:Eab;
    destruct (JS.lt (JS.get b (key cfg)) (JS.get a (key cfg))) eqn:Eba;
    try (rewrite (DataTableFacts.lt_asym _ _ Eab) in Eba; discriminate);
    destruct (direction cfg); simpl; split; intros; try lia; congruence.
Qed.

Lemma compareFn_zero cfg (a b : record) :
  compareFn cfg a b = 0 <->
  compareFn cfg a b <= 0 /\ compareFn cfg b a <= 0.
Proof.
  unfold compareFn, JS.gt.
  destruct (JS.lt (JS.get a (key cfg)) (JS.get b (key cfg))) eqn:Eab;
    destruct (JS.lt (JS.get b (key cfg)) (JS.get a (key cfg))) eqn:Eba;
    try (rewrite (DataTableFacts.lt_asym _ _ Eab) in Eba; discriminate);
    destruct (direction cfg); simpl; lia.
Qed.


(** On a consistent column, "not greater" under the comparator is
    transitive. *)
Lemma compareFn_trans cfg (l : list record) (a b c : record) :
  consistentColumn (key cfg) l -> In a l -> In b l -> In c l ->
  compareFn cfg a b <= 0 -> compareFn cfg b c <= 0 -> compareFn cfg a c <= 0.
Proof.
  intros Hc Ha Hb Hcc. rewrite !compareFn_le.
  destruct (direction cfg); intros H1 H2.
  - destruct (JS.lt (JS.get c (key cfg)) (JS.get a (key cfg))) eqn:E;
      [|reflexivity].
    destruct (Hc c b a Hcc Hb Ha E); congruence.
  - destruct (JS.lt (JS.get a (key cfg)) (JS.get c (key cfg))) eqn:E;
      [|reflexivity].
    destruct (Hc a b c Ha Hb Hcc E); congruence.
Qed.

(** ** The sort on a consistent column *)

Lemma sort_strongly_sorted cfg (l : list record) :
  consistentColumn (key cfg) l ->
  StronglySorted (fun a b => compareFn cfg a b <= 0)
                 (JS.sort (compareFn cfg) l).
Proof.
  intros Hc.
  apply (TableMore.StronglySorted_of_Sorted _ (fun r => In r l)).
  - intros a b c Ha Hb Hcc. now apply (compareFn_trans cfg l).
  - apply Forall_forall. intros r Hr. now apply sort_In in Hr.
  - apply sort_sorted. apply DataTableFacts.compareFn_antisym.
Qed.

(** The records tied with [x] under the comparator keep their order. *)
Lemma sort_keeps_ties cfg (l : list record) (x : record) :
  consistentColumn (key cfg) l -> In x l ->
  filter (fun y => compareFn cfg x y =? 0) (JS.sort (compareFn cfg) l) =
  filter (fun y => compareFn cfg x y =? 0) l.
Proof.
  intros Hc Hx. apply sort_stable. intros a b Ha Hb Pa Pb.
  apply Z.eqb_eq, compareFn_zero in Pa, Pb.
  destruct Pa as [Hxa Hax], Pb as [Hxb Hbx].
  now apply (compareFn_trans cfg l a x b).
Qed.




(** Swapping the arguments of the comparator swaps "less" and
    "greater". *)
Lemma compareFn_flip cfg (a b : record) :
  compareFn cfg a b < 0 <-> 0 < compareFn cfg b a.
Proof.
  unfold compareFn, JS.gt.
  destruct (JS.lt (JS.get a (key cfg)) (JS.get b (key cfg))) eqn:Eab;
    destruct (JS.lt (JS.get b (key cfg)) (JS.get a (key cfg))) eqn:Eba;
    try (rewrite (DataTableFacts.lt_asym _ _ Eab) in Eba; discriminate);
    destruct (direction cfg); simpl; lia.
Qed.

(** On a consistent column the result of the sort is fixed: an
    arrangement of the records that is in comparator order and keeps the
    records that compare as 0 in their sequence is the sorted array. *)
Lemma stable_arrangement_is_sort cfg (l out : list record) :
  consistentColumn (key cfg) l ->
  Permutation l out ->
  StronglySorted (fun a b => compareFn cfg a b <= 0) out ->
  (forall x, In x l ->
     filter (fun y => compareFn cfg x y =? 0) out =
     filter (fun y => compareFn cfg x y =? 0) l) ->
  out = JS.sort (compareFn cfg) l.
Proof.
  intros Hcons Hperm Hsorted Hties.
  set (prec := fun x y : record => 0 <? compareFn cfg y x).
  assert (Hirr : forall a, prec a a = false).
  { intros a. unfold prec.
    now rewrite (DataTableFacts.compareFn_tie cfg a a eq_refl). }
  assert (Hclass : forall x y,
            (negb (prec x y) && negb (prec y x))%bool
            = (compareFn cfg x y =? 0)).
  { intros x y. unfold prec.
    pose proof (compareFn_zero cfg x y) as H0.
    destruct (Z.ltb_spec 0 (compareFn cfg y x)),
             (Z.ltb_spec 0 (compareFn cfg x y)),
             (Z.eqb_spec (compareFn cfg x y) 0); simpl; try reflexivity;
      lia. }
  assert (Hrel : forall l', StronglySorted
                   (fun a b => compareFn cfg a b <= 0) l' ->
                 StronglySorted (fun a b => prec b a = false) l').
  { intros l'. apply TableMore.StronglySorted_weaken.
    intros a b _ _ H. unfold prec. apply Z.ltb_ge. exact H. }
  apply (stable_sorted_unique prec Hirr).
  - etransitivity; [symmetry; exact Hperm|apply sort_perm].
  - now apply Hrel.
  - apply Hrel. now apply sort_strongly_sorted.
  - intros x Hx.
    assert (Hin : In x l)
      by (eapply Permutation_in; [symmetry; exact Hperm|exact Hx]).
    rewrite (filter_ext _ _ (Hclass x) out).
    rewrite (filter_ext _ _ (Hclass x) (JS.sort (compareFn cfg) l)).
    rewrite (Hties x Hin). symmetry. now apply sort_keeps_ties.
Qed.

(** ** The pipeline *)


(** ** Stability *)

End Sorting.


(** ** On the sample data *)

Section SortSamples.
Import IntNumber Sample SampleViews.
Local Open Scope string_scope.



Lemma locomotive_ids_are_strings (r : record) :
  In r allLocomotives -> exists s, JS.get r "id" = JS.VStr s.
Proof.
  unfold allLocomotives. intros H. apply in_map_iff in H.
  destruct H as (i & <- & _). eexists. reflexivity.
Qed.






End SortSamples.
End SortedView.

(* ===================================================================== *)
(** * V8's sort on a consistent comparator *)
(* ===================================================================== *)

Module V8Facts.
Import JSFacts.

Section Lists.
Context {X : Type}.

Lemma firstn_length_app (l1 l2 : list X) :
  firstn (List.length l1) (l1 ++ l2) = l1.
Proof. induction l1 as [|a l1 IH]; simpl; [now destruct l2|now rewrite IH]. Qed.

Lemma skipn_length_app (l1 l2 : list X) :
  skipn (List.length l1) (l1 ++ l2) = l2.
Proof. induction l1 as [|a l1 IH]; simpl; [reflexivity|exact IH]. Qed.

Lemma StronglySorted_app (R : X -> X -> Prop) (l1 l2 : list X) :
  StronglySorted R l1 -> StronglySorted R l2 ->
  (forall a b, In a l1 -> In b l2 -> R a b) ->
  StronglySorted R (l1 ++ l2).
Proof.
  intros S1 S2 H. induction S1 as [|a l1 S1 IH F1]; simpl; [exact S2|].
  constructor.
  - apply IH. intros x y Hx Hy. apply H; [now right|exact Hy].
  - apply Forall_app. split; [exact F1|].
    apply Forall_forall. intros y Hy. apply H; [now left|exact Hy].
Qed.

Lemma StronglySorted_app_inv (R : X -> X -> Prop) (l1 l2 : list X) :
  StronglySorted R (l1 ++ l2) ->
  StronglySorted R l1 /\ StronglySorted R l2
  /\ forall a b, In a l1 -> In b l2 -> R a b.
Proof.
  induction l1 as [|a l1 IH]; simpl; intros S.
  - split; [constructor|]. split; [exact S|]. intros a b [].
  - apply StronglySorted_inv in S. destruct S as [S F].
    destruct (IH S) as (S1 & S2 & H).
    apply Forall_app in F. destruct F as [F1 F2].
    split; [now constructor|]. split; [exact S2|].
    intros x y [<-|Hx] Hy.
    + rewrite Forall_forall in F2. now apply F2.
    + now apply H.
Qed.

Lemma StronglySorted_rev (R : X -> X -> Prop) (l : list X) :
  StronglySorted R l -> StronglySorted (fun a b => R b a) (rev l).
Proof.
  intros S. induction S as [|a l S IH F]; simpl; [constructor|].
  apply StronglySorted_app; [exact IH|repeat constructor|].
  intros x y Hx [<-|[]]. apply in_rev in Hx.
  rewrite Forall_forall in F. now apply F.
Qed.

Lemma filter_none (f : X -> bool) (l : list X) :
  (forall y, In y l -> f y = false) -> filter f l = [].
Proof.
  intros H. induction l as [|a l IH]; [reflexivity|]. simpl.
  rewrite (H a (or_introl eq_refl)). apply IH. intros y Hy. apply H. now right.
Qed.

Lemma Sorted_weaken (R R' : X -> X -> Prop) (l : list X) :
  (forall a b, R a b -> R' a b) -> Sorted R l -> Sorted R' l.
Proof.
  intros H S. induction S as [|a l S IH Hd]; constructor; [exact IH|].
  destruct Hd; constructor. now apply H.
Qed.
End Lists.

Section Generic.
Context {A : Type}.
Variable cmp : A -> A -> Z.
Variable P : A -> Prop.

(** The comparator is consistent on the elements [P]: swapping the
    arguments swaps "less" and "greater", and "not greater" is
    transitive. *)
Hypothesis cmp_flip : forall a b, cmp a b < 0 <-> 0 < cmp b a.
Hypothesis cmp_trans : forall a b c, P a -> P b -> P c ->
  cmp a b <= 0 -> cmp b c <= 0 -> cmp a c <= 0.

Lemma lt_le_trans (a b c : A) :
  P a -> P b -> P c -> cmp a b < 0 -> cmp b c <= 0 -> cmp a c < 0.
Proof.
  intros Pa Pb Pc Hab Hbc.
  destruct (Z.lt_ge_cases (cmp a c) 0) as [H|H]; [exact H|].
  assert (Hca : cmp c a <= 0) by (pose proof (cmp_flip a c); lia).
  pose proof (cmp_trans b c a Pb Pc Pa Hbc Hca).
  pose proof (cmp_flip a b). lia.
Qed.

Lemma le_lt_trans (a b c : A) :
  P a -> P b -> P c -> cmp a b <= 0 -> cmp b c < 0 -> cmp a c < 0.
Proof.
  intros Pa Pb Pc Hab Hbc.
  destruct (Z.lt_ge_cases (cmp a c) 0) as [H|H]; [exact H|].
  assert (Hca : cmp c a <= 0) by (pose proof (cmp_flip a c); lia).
  pose proof (cmp_trans c a b Pc Pa Pb Hca Hab).
  pose proof (cmp_flip b c). lia.
Qed.

(** An element tied with [x], itself tied with [a], is not below [a]. *)
Lemma tie_not_lt (x a y : A) :
  P x -> P a -> P y ->
  cmp x a = 0 -> cmp x y = 0 -> cmp y a < 0 -> False.
Proof.
  intros Px Pa Py Hxa Hxy Hya.
  assert (Hax : cmp a x <= 0) by (pose proof (cmp_flip x a); lia).
  assert (Hay : cmp a y <= 0)
    by (apply (cmp_trans a x y); trivial; lia).
  pose proof (cmp_flip y a). lia.
Qed.

(** *** The binary search *)

Lemma search_partition (pivot : A) (l1 l2 : list A) :
  Forall (fun y => 0 <= cmp pivot y) l1 ->
  Forall (fun y => cmp pivot y < 0) l2 ->
  forall (fuel left right : nat),
    (left <= List.length l1)%nat -> (List.length l1 <= right)%nat ->
    (right <= List.length (l1 ++ l2))%nat ->
    (right - left < fuel)%nat ->
    V8.search cmp fuel pivot (l1 ++ l2) left right = List.length l1.
Proof.
  intros F1 F2. rewrite Forall_forall in F1, F2.
  induction fuel as [|fuel IH]; intros left right Hl Hr Hlen Hfuel; [lia|].
  cbn [V8.search]. destruct (left <? right)%nat eqn:E.
  - apply Nat.ltb_lt in E.
    assert (Hhalf : ((right - left) / 2 < right - left)%nat)
      by (apply Nat.div_lt; lia).
    set (mid := (left + (right - left) / 2)%nat).
    assert (Hm : (left <= mid < right)%nat) by (unfold mid; lia).
    clearbody mid. clear Hhalf.
    destruct (Nat.lt_ge_cases mid (List.length l1)) as [Hmid|Hmid].
    + rewrite nth_error_app1 by exact Hmid.
      destruct (nth_error l1 mid) as [x|] eqn:Ex.
      * apply nth_error_In in Ex. apply F1 in Ex.
        replace (cmp pivot x <? 0) with false
          by (symmetry; apply Z.ltb_ge; exact Ex).
        apply IH; lia.
      * apply nth_error_None in Ex. lia.
    + rewrite nth_error_app2 by exact Hmid.
      pose proof Hlen as Hlen'. rewrite length_app in Hlen'.
      destruct (nth_error l2 (mid - List.length l1)) as [x|] eqn:Ex.
      * apply nth_error_In in Ex. apply F2 in Ex.
        replace (cmp pivot x <? 0) with true
          by (symmetry; apply Z.ltb_lt; exact Ex).
        apply IH; lia.
      * apply nth_error_None in Ex. lia.
  - apply Nat.ltb_ge in E. lia.
Qed.

(** A sorted array is cut in two by a pivot: the elements the pivot is
    not below, then the elements it is below. *)
Lemma sorted_partition (pivot : A) (s : list A) :
  StronglySorted (fun a b => cmp a b <= 0) s -> Forall P s -> P pivot ->
  exists l1 l2,
    s = l1 ++ l2
    /\ Forall (fun y => 0 <= cmp pivot y) l1
    /\ Forall (fun y => cmp pivot y < 0) l2.
Proof.
  intros S HP Pp. induction S as [|a l S IH F].
  - exists [], []. repeat split; constructor.
  - inversion HP as [|? ? Pa Pl]; subst.
    destruct (Z.lt_ge_cases (cmp pivot a) 0) as [H|H].
    + exists [], (a :: l). split; [reflexivity|]. split; [constructor|].
      constructor; [exact H|].
      rewrite Forall_forall in F, Pl |- *. intros y Hy.
      apply (lt_le_trans pivot a y); auto.
    + destruct (IH Pl) as (l1 & l2 & -> & F1 & F2).
      exists (a :: l1), l2. split; [reflexivity|].
      split; [now constructor|exact F2].
Qed.

Lemma insertPivot_partition (pivot : A) (l1 l2 : list A) :
  Forall (fun y => 0 <= cmp pivot y) l1 ->
  Forall (fun y => cmp pivot y < 0) l2 ->
  V8.insertPivot cmp (l1 ++ l2) pivot = l1 ++ pivot :: l2.
Proof.
  intros F1 F2. unfold V8.insertPivot.
  rewrite (search_partition pivot l1 l2 F1 F2)
    by (rewrite ?length_app; lia).
  now rewrite firstn_length_app, skipn_length_app.
Qed.

(** *** One round, and all rounds *)

Lemma insertPivot_good (pivot : A) (s : list A) :
  StronglySorted (fun a b => cmp a b <= 0) s -> Forall P s -> P pivot ->
  Permutation (s ++ [pivot]) (V8.insertPivot cmp s pivot)
  /\ StronglySorted (fun a b => cmp a b <= 0) (V8.insertPivot cmp s pivot)
  /\ forall x, P x ->
       filter (fun y => cmp x y =? 0) (V8.insertPivot cmp s pivot)
       = filter (fun y => cmp x y =? 0) (s ++ [pivot]).
Proof.
  intros S HP Pp.
  destruct (sorted_partition pivot s S HP Pp) as (l1 & l2 & -> & F1 & F2).
  rewrite (insertPivot_partition pivot l1 l2 F1 F2).
  apply StronglySorted_app_inv in S. destruct S as (S1 & S2 & H12).
  apply Forall_app in HP. destruct HP as [P1 P2].
  rewrite Forall_forall in F1, F2, P1, P2.
  split; [|split].
  - rewrite <- app_assoc. apply Permutation_app_head.
    symmetry. apply Permutation_cons_append.
  - apply StronglySorted_app; [exact S1| |].
    + constructor; [exact S2|]. apply Forall_forall. intros y Hy.
      apply F2 in Hy. lia.
    + intros a b Ha [<-|Hb]; [|now apply H12].
      apply F1 in Ha. pose proof (cmp_flip pivot a). lia.
  - intros x Px. rewrite <- app_assoc, !filter_app. f_equal. simpl.
    destruct (Z.eqb_spec (cmp x pivot) 0) as [E|E]; [|now rewrite app_nil_r].
    rewrite (filter_none (fun y => cmp x y =? 0) l2); [reflexivity|].
    intros y Hy. apply Z.eqb_neq. intros Hxy.
    apply (tie_not_lt x y pivot); auto.
Qed.

Lemma binaryInsertionSort_good (rest : list A) :
  forall sorted,
    StronglySorted (fun a b => cmp a b <= 0) sorted ->
    Forall P sorted -> Forall P rest ->
    Permutation (sorted ++ rest) (V8.binaryInsertionSort cmp sorted rest)
    /\ StronglySorted (fun a b => cmp a b <= 0)
         (V8.binaryInsertionSort cmp sorted rest)
    /\ forall x, P x ->
         filter (fun y => cmp x y =? 0)
                (V8.binaryInsertionSort cmp sorted rest)
         = filter (fun y => cmp x y =? 0) (sorted ++ rest).
Proof.
  unfold V8.binaryInsertionSort.
  induction rest as [|pivot rest IH]; intros sorted S Ps Pr; simpl.
  - rewrite app_nil_r. repeat split; auto.
  - inversion Pr as [|? ? Pp Pr']; subst.
    destruct (insertPivot_good pivot sorted S Ps Pp) as (Hperm & S' & Hf).
    assert (Ps' : Forall P (V8.insertPivot cmp sorted pivot)).
    { eapply Permutation_Forall; [exact Hperm|].
      apply Forall_app. split; [exact Ps|now constructor]. }
    destruct (IH _ S' Ps' Pr') as (Hperm' & S'' & Hf').
    split; [|split; [exact S''|]].
    + etransitivity; [|exact Hperm'].
      replace (sorted ++ pivot :: rest) with ((sorted ++ [pivot]) ++ rest)
        by (now rewrite <- app_assoc).
      now apply Permutation_app_tail.
    + intros x Px. rewrite (Hf' x Px), filter_app, (Hf x Px).
      replace (sorted ++ pivot :: rest) with ((sorted ++ [pivot]) ++ rest)
        by (now rewrite <- app_assoc).
      symmetry. apply filter_app.
Qed.

(** *** The run the array starts with *)

Lemma extendRun_le (d : bool) (previous : A) (rest : list A) :
  (V8.extendRun cmp d previous rest <= List.length rest)%nat.
Proof.
  revert previous. induction rest as [|current rest IH]; intros previous;
    simpl; [lia|].
  destruct d.
  - destruct (0 <=? cmp current previous); [lia|].
    specialize (IH current). lia.
  - destruct (cmp current previous <? 0); [lia|].
    specialize (IH current). lia.
Qed.

Lemma extendRun_sorted (d : bool) (previous : A) (rest : list A) :
  Sorted (fun a b => if d then cmp b a < 0 else 0 <= cmp b a)
         (previous :: firstn (V8.extendRun cmp d previous rest) rest).
Proof.
  revert previous. induction rest as [|current rest IH]; intros previous;
    simpl; [repeat constructor|].
  destruct d.
  - destruct (Z.leb_spec 0 (cmp current previous)); simpl;
      [repeat constructor|].
    constructor; [apply IH|]. now constructor.
  - destruct (Z.ltb_spec (cmp current previous) 0); simpl;
      [repeat constructor|].
    constructor; [apply IH|]. now constructor.
Qed.

(** A strictly descending run, turned round, is ascending, and no two of
    its elements are tied with one element. *)
Lemma descending_run (run : list A) :
  Forall P run ->
  Sorted (fun a b => cmp b a < 0) run ->
  StronglySorted (fun a b => cmp a b <= 0) (rev run)
  /\ forall x, P x ->
       filter (fun y => cmp x y =? 0) (rev run)
       = filter (fun y => cmp x y =? 0) run.
Proof.
  intros HP S.
  assert (SS : StronglySorted (fun a b => cmp b a < 0) run).
  { apply (TableMore.StronglySorted_of_Sorted _ P); [|exact HP|exact S].
    intros a b c Pa Pb Pc Hba Hcb.
    apply (lt_le_trans c b a); auto. lia. }
  split.
  - apply (TableMore.StronglySorted_weaken (fun a b => cmp a b < 0)).
    + intros a b _ _ H. lia.
    + exact (StronglySorted_rev _ run SS).
  - intros x Px. clear S.
    induction SS as [|a run SS IH F]; [reflexivity|].
    inversion HP as [|? ? Pa Pr]; subst.
    simpl. rewrite filter_app, (IH Pr). simpl.
    destruct (Z.eqb_spec (cmp x a) 0) as [E|E]; [|apply app_nil_r].
    rewrite (filter_none (fun y => cmp x y =? 0) run); [reflexivity|].
    intros y Hy. apply Z.eqb_neq. intros Hxy.
    rewrite Forall_forall in F, Pr.
    apply (tie_not_lt x a y); auto.
Qed.

(** *** The whole sort *)

(** On fewer than 64 elements and a consistent comparator, V8's sort
    returns an arrangement of the array that is in order and keeps tied
    elements in their sequence. *)
Lemma sort_good (l : list A) :
  Forall P l -> (List.length l < 64)%nat ->
  exists out,
    V8.sort cmp l = Some out
    /\ Permutation l out
    /\ StronglySorted (fun a b => cmp a b <= 0) out
    /\ forall x, P x ->
         filter (fun y => cmp x y =? 0) out
         = filter (fun y => cmp x y =? 0) l.
Proof.
  intros HP Hlen. unfold V8.sort.
  destruct l as [|hi [|lo rest]].
  - exists []. repeat split; auto. constructor.
  - exists [hi]. repeat split; auto. repeat constructor.
  - replace (List.length (hi :: lo :: rest) <? 2)%nat with false
      by (symmetry; apply Nat.ltb_ge; simpl; lia).
    replace (List.length (hi :: lo :: rest) <? 64)%nat with true
      by (symmetry; apply Nat.ltb_lt; exact Hlen).
    cbn [V8.countAndMakeRun].
    set (d := cmp lo hi <? 0).
    set (n := V8.extendRun cmp d lo rest).
    pose proof (extendRun_le d lo rest) as Hn. fold n in Hn.
    pose proof (extendRun_sorted d lo rest) as Hrun. fold n in Hrun.
    inversion HP as [|? ? Phi HP']; subst.
    inversion HP' as [|? ? Plo Prest]; subst.
    assert (Prun : Forall P (hi :: lo :: firstn n rest)).
    { constructor; [exact Phi|]. constructor; [exact Plo|].
      apply Forall_forall. intros y Hy. apply TableMore.In_firstn in Hy.
      rewrite Forall_forall in Prest. now apply Prest. }
    assert (Pskip : Forall P (skipn n rest)).
    { apply Forall_forall. intros y Hy. apply TableMore.In_skipn in Hy.
      rewrite Forall_forall in Prest. now apply Prest. }
    assert (Hsplit : hi :: lo :: rest
                     = (hi :: lo :: firstn n rest) ++ skipn n rest).
    { simpl. now rewrite firstn_skipn. }
    change (firstn (2 + n) (hi :: lo :: rest))
      with (hi :: lo :: firstn n rest).
    change (skipn (2 + n) (hi :: lo :: rest)) with (skipn n rest).
    assert (Hgood : forall s,
              Permutation (hi :: lo :: firstn n rest) s ->
              StronglySorted (fun a b => cmp a b <= 0) s ->
              (forall x, P x ->
                 filter (fun y => cmp x y =? 0) s
                 = filter (fun y => cmp x y =? 0) (hi :: lo :: firstn n rest)) ->
              exists out,
                Some (V8.binaryInsertionSort cmp s (skipn n rest)) = Some out
                /\ Permutation (hi :: lo :: rest) out
                /\ StronglySorted (fun a b => cmp a b <= 0) out
                /\ forall x, P x ->
                     filter (fun y => cmp x y =? 0) out
                     = filter (fun y => cmp x y =? 0) (hi :: lo :: rest)).
    { intros s Hperm Hs Hf.
      assert (Ps : Forall P s)
        by (eapply Permutation_Forall; [exact Hperm|exact Prun]).
      destruct (binaryInsertionSort_good (skipn n rest) s Hs Ps Pskip)
        as (Hperm' & S' & Hf').
      eexists. split; [reflexivity|]. split; [|split; [exact S'|]].
      - rewrite <- Hperm'. rewrite Hsplit at 1.
        now apply Permutation_app_tail.
      - intros x Px. rewrite (Hf' x Px), filter_app, (Hf x Px).
        symmetry. rewrite Hsplit. apply filter_app. }
    destruct d eqn:Ed.
    + (* a descending run, reversed *)
      assert (Hd : cmp lo hi < 0) by (apply Z.ltb_lt; exact Ed).
      assert (Hsorted : Sorted (fun a b => cmp b a < 0)
                          (hi :: lo :: firstn n rest)).
      { constructor; [exact Hrun|]. now constructor. }
      destruct (descending_run _ Prun Hsorted) as [Hs Hf].
      assert (Hl : List.length (rev (hi :: lo :: firstn n rest))
                   = (2 + n)%nat).
      { rewrite length_rev. simpl. rewrite length_firstn. lia. }
      rewrite <- Hl.
      rewrite firstn_length_app, skipn_length_app.
      apply Hgood; [apply Permutation_rev|exact Hs|exact Hf].
    + (* an ascending run, as it is *)
      assert (Hd : 0 <= cmp lo hi) by (apply Z.ltb_ge; exact Ed).
      change (firstn (2 + n) (hi :: lo :: rest))
        with (hi :: lo :: firstn n rest).
      change (skipn (2 + n) (hi :: lo :: rest)) with (skipn n rest).
      apply Hgood; [reflexivity| |reflexivity].
      apply (TableMore.StronglySorted_of_Sorted _ P);
        [exact cmp_trans|exact Prun|].
      apply (Sorted_weaken (fun a b => 0 <= cmp b a)).
      * intros a b H. pose proof (cmp_flip b a). lia.
      * constructor; [exact Hrun|]. now constructor.
Qed.
End Generic.

(** *** The table *)

Section Table.
Context {N : JsNumber}.
Import DataTable Design SortedView.

(** X22: on V8 the table sorts as the language specifies. For fewer than
    64 filtered records and a column on which the comparator is
    consistent, V8's procedure returns the sorted array of the table: the
    filtered records in comparator order, records that compare as 0 in
    filtered order. *)
Theorem v8_sorts_consistent_column props st data :
  (forall cfg, sortConfig st = Some cfg ->
     consistentColumn (key cfg) (filteredData props st data)) ->
  (List.length (filteredData props st data) < 64)%nat ->
  V8.sortedData props st data = Some (sortedData props st data).
Proof.
  intros Hc Hlen. unfold V8.sortedData, sortedData.
  destruct (sortable props); [|reflexivity].
  destruct (sortConfig st) as [cfg|] eqn:E; [|reflexivity].
  specialize (Hc cfg eq_refl).
  set (l := filteredData props st data) in *.
  destruct (sort_good (compareFn cfg) (fun r => In r l)
              (compareFn_flip cfg)
              (fun a b c => compareFn_trans cfg l a b c Hc)
              l (proj2 (Forall_forall _ l) (fun r Hr => Hr)) Hlen)
    as (out & -> & Hperm & Hs & Hf).
  f_equal. now apply stable_arrangement_is_sort.
Qed.
End Table.

Section V8Samples.
Import DataTable Design IntNumber Sample SampleViews.
Local Open Scope string_scope.

Lemma v8_sorts_consistent_column_witness :
  V8.sortedData defaultProps
    (mkState 0 10 "marc" (Some (mkSortConfig "id" desc))) allLocomotives
  = Some (sortedData defaultProps
            (mkState 0 10 "marc" (Some (mkSortConfig "id" desc)))
            allLocomotives).
Proof.
  apply (v8_sorts_consistent_column defaultProps
           (mkState 0 10 "marc" (Some (mkSortConfig "id" desc)))
           allLocomotives).
  - intros cfg Hcfg. simpl in Hcfg. injection Hcfg as <-.
    apply SortedView.string_column_consistent. intros r Hr.
    apply SortedView.locomotive_ids_are_strings.
    exact (DataTableFacts.filteredData_incl _ _ _ r Hr).
  - apply Nat.ltb_lt. vm_compute. reflexivity.
Defined.
End V8Samples.

End V8Facts.


(* ===================================================================== *)
(** * The store during a session *)
(* ===================================================================== *)

Module StoreMore.
Import DataTable StoreFacts.

Section Extends.
Context {N : JsNumber}.

Lemma update_fresh {A : Type} (h : Store.heap (A := A)) (a b : list A) :
  Store.update (List.length h) b (h ++ [a]) = h ++ [b].
Proof. induction h as [|x h IH]; simpl; [reflexivity|now rewrite IH]. Qed.

Lemma render_appends props st (data : Store.loc) (h : Store.heap)
  (arr : list record) :
  nth_error h data = Some arr ->
  exists r new, render props st data h = Some (r, h ++ new).
Proof.
  intros Hd. unfold render.
  assert (Hf : exists f new1 a1,
    (if searchable props
     then Store.arr_filter (matches (searchTerm st)) data
     else Store.ret data) h = Some (f, h ++ new1)
    /\ nth_error (h ++ new1) f = Some a1).
  { destruct (searchable props).
    - eexists _, [_], _. rewrite (arr_filter_run _ _ _ _ Hd).
      split; [reflexivity|apply lookup_alloc_new].
    - exists data, [], arr. rewrite app_nil_r. now split. }
  destruct Hf as (f & new1 & a1 & Hrun1 & Hf1).
  unfold Store.bind at 1. rewrite Hrun1.
  assert (Hs : exists s new2 a2,
    (match sortable props, sortConfig st with
     | true, Some cfg =>
         Store.bind (Store.arr_spread f)
                    (fun copy => Store.arr_sort (compareFn cfg) copy)
     | _, _ => Store.ret f
     end) (h ++ new1) = Some (s, h ++ new2)
    /\ nth_error (h ++ new2) s = Some a2).
  { destruct (sortable props); [destruct (sortConfig st) as [cfg|]|].
    - unfold Store.bind at 1. rewrite (arr_spread_run _ _ _ Hf1).
      rewrite (arr_sort_run _ _ _ _ (lookup_alloc_new (h ++ new1) a1)).
      rewrite update_fresh.
      exists (List.length (h ++ new1)),
             (new1 ++ [JS.sort (compareFn cfg) a1]), (JS.sort (compareFn cfg) a1).
      rewrite app_assoc. split; [reflexivity|apply lookup_alloc_new].
    - now exists f, new1, a1.
    - now exists f, new1, a1. }
  destruct Hs as (s & new2 & a2 & Hrun2 & Hs2).
  unfold Store.bind at 1. rewrite Hrun2.
  unfold Store.bind, Store.ret.
  destruct (pagination props).
  - rewrite (arr_slice_run _ _ _ _ _ Hs2).
    eexists _, (new2 ++ [_]). now rewrite app_assoc.
  - now eexists _, new2.
Qed.

(** X14: a browsing session only ever adds arrays to the store. Whatever
    the props, the events and the starting state, the store it ends with is
    the store it began with followed by new arrays: no array that existed
    before, the caller's or anyone else's, is written to or removed. *)
Theorem session_appends props (data : Store.loc) (evs : list Event) st
  (h : Store.heap) (arr : list record) :
  nth_error h data = Some arr ->
  exists st' new, session props data evs st h = Some (st', h ++ new).
Proof.
  revert st h. induction evs as [|ev evs IH]; intros st h Hd.
  - destruct (render_appends props st data h arr Hd) as (r & new & Hr).
    exists st, new. simpl. unfold Store.bind. now rewrite Hr.
  - destruct (DataTableFacts.render_run props st data h arr Hd)
      as (r & h1 & Hr & Hd1 & Hf1 & _).
    destruct (render_appends props st data h arr Hd) as (r' & new & Hr').
    rewrite Hr in Hr'. injection Hr' as <- ->.
    destruct (IH (handle props
                    (JS.ceil_div
                       (Z.of_nat (List.length (filteredData props st arr)))
                       (rowsPerPage st)) ev st)
                 (h ++ new) Hd1) as (st' & new' & Hs).
    exists st', (new ++ new'). rewrite app_assoc.
    simpl. unfold Store.bind at 1. rewrite Hr.
    unfold Store.bind at 1. rewrite (arr_length_run _ _ _ Hf1).
    exact Hs.
Qed.
End Extends.

End StoreMore.

(* ===================================================================== *)
(** * Tabs *)
(* ===================================================================== *)

Module TabViewFacts.
Import TabView.

Section TabFacts.
Context {Node : Type}.
Implicit Types (tabs : list (Tab (Node := Node))) (tab : Tab (Node := Node)).

Lemma shown_first tabs1 tab tabs2 (a : string) :
  id tab = a ->
  (forall u, In u tabs1 -> id u <> a) ->
  shown (tabs1 ++ tab :: tabs2) a = Some (content tab).
Proof.
  intros Hid Hbefore. unfold shown.
  induction tabs1 as [|u tabs1 IH]; simpl.
  - now rewrite (proj2 (String.eqb_eq _ _) Hid).
  - rewrite (proj2 (String.eqb_neq _ _) (Hbefore u (or_introl eq_refl))).
    apply IH. intros v Hv. apply Hbefore. now right.
Qed.

(** X15: when two tabs carry the same id, a click on either shows the
    content of the one that comes first, while both buttons are drawn as
    active. *)
Theorem first_tab_with_id_wins tabs1 tab tabs2 tabs3 tab' (a : string) :
  id tab' = id tab ->
  (forall u, In u tabs1 -> id u <> id tab) ->
  let tabs := tabs1 ++ tab :: tabs2 ++ tab' :: tabs3 in
  shown tabs (onClick tab' a) = Some (content tab)
  /\ nth_error (active tabs (onClick tab' a)) (List.length tabs1) = Some true
  /\ nth_error (active tabs (onClick tab' a))
       (List.length tabs1 + 1 + List.length tabs2) = Some true.
Proof.
  intros Hid Hbefore tabs. unfold onClick. split; [|split].
  - subst tabs. apply shown_first; [now symmetry|].
    intros u Hu. rewrite Hid. now apply Hbefore.
  - subst tabs. unfold active. rewrite map_app, nth_error_app2;
      rewrite length_map; [|lia].
    rewrite Nat.sub_diag. simpl. rewrite Hid. now rewrite String.eqb_refl.
  - subst tabs. unfold active.
    rewrite map_app, nth_error_app2; rewrite length_map; [|lia].
    replace (List.length tabs1 + 1 + List.length tabs2 - List.length tabs1)%nat
      with (S (List.length tabs2)) by lia.
    simpl. rewrite map_app, nth_error_app2; rewrite length_map; [|lia].
    rewrite Nat.sub_diag. simpl. now rewrite String.eqb_refl.
Qed.

Lemma shown_Some_of_In tabs tab :
  In tab tabs -> shown tabs (id tab) <> None.
Proof.
  intros Hin. unfold shown.
  destruct (find _ tabs) eqn:E; [discriminate|].
  apply (find_none _ _ E) in Hin. now rewrite String.eqb_refl in Hin.
Qed.

(** With distinct ids, the tab shown is the tab clicked. *)
Lemma shown_clicked tabs tab (a : string) :
  NoDup (map id tabs) -> In tab tabs ->
  shown tabs (onClick tab a) = Some (content tab).
Proof.
  intros Hnd Hin. apply in_split in Hin. destruct Hin as (l1 & l2 & ->).
  apply shown_first; [reflexivity|]. unfold onClick.
  intros u Hu Heq. rewrite map_app in Hnd. simpl in Hnd.
  apply NoDup_remove_2 in Hnd. apply Hnd.
  apply in_or_app. left. rewrite <- Heq. now apply in_map.
Qed.

Lemma last_cons_default {X : Type} (c d : X) (l : list X) :
  last (c :: l) d = last l c.
Proof.
  revert c d. induction l as [|x l IH]; intros c d; [reflexivity|].
  change (last (c :: x :: l) d) with (last (x :: l) d).
  now rewrite (IH x d), (IH x c).
Qed.

Lemma clicks_last tabs (clicked : list Tab) tab0 :
  In tab0 tabs ->
  Forall (fun t => In t tabs) clicked ->
  clicks clicked (id tab0) = id (last clicked tab0)
  /\ In (last clicked tab0) tabs.
Proof.
  revert tab0. induction clicked as [|c clicked IH]; intros tab0 H0 Hall.
  - now split.
  - inversion Hall as [|? ? Hc Hrest]; subst.
    rewrite last_cons_default.
    change (clicks (c :: clicked) (id tab0)) with (clicks clicked (id c)).
    now apply IH.
Qed.

(** X16: the panel under the tabs is never empty. With at least one tab
    the view starts, and after any clicks on its tabs it shows some
    content; with distinct ids, that of the tab clicked last (of the first
    tab when nothing was clicked). *)
Theorem panel_never_empty tab0 tabs (clicked : list Tab) :
  Forall (fun t => In t (tab0 :: tabs)) clicked ->
  exists a0,
    init (tab0 :: tabs) = inr a0
    /\ shown (tab0 :: tabs) (clicks clicked a0) <> None
    /\ (NoDup (map id (tab0 :: tabs)) ->
        shown (tab0 :: tabs) (clicks clicked a0)
        = Some (content (last clicked tab0))).
Proof.
  intros Hall. exists (id tab0). split; [reflexivity|].
  destruct (clicks_last (tab0 :: tabs) clicked tab0 (or_introl eq_refl) Hall)
    as [Hc Hin].
  rewrite Hc. split.
  - now apply shown_Some_of_In.
  - intros Hnd. apply (shown_clicked _ _ (id tab0) Hnd Hin).
Qed.
End TabFacts.

End TabViewFacts.

(* ===================================================================== *)
(** * The theme toggle and the body class *)
(* ===================================================================== *)

Module ThemeFacts.
Import Theme.

Lemma toggles_keep_step (n : nat) (st : State) :
  Bool.eqb (isDarkMode (toggles n st)) (bodyDark (toggles n st)) =
  Bool.eqb (isDarkMode st) (bodyDark st).
Proof.
  revert st. induction n as [|n IH]; intros st; [reflexivity|].
  simpl. rewrite IH. simpl. now destruct (isDarkMode st), (bodyDark st).
Qed.

(** X17: [isDarkMode] and the [dark] class of the body stay in step or
    stay out of step. After the mount effect and any number of toggles
    they agree exactly when the user prefers dark mode or the body did not
    carry the class at mount: a body that already has the class, under a
    user who does not prefer dark mode, shows the opposite theme for
    good. *)
Theorem theme_in_step (n : nat) (prefersDarkMode : bool) (st : State) :
  let st' := toggles n (mount prefersDarkMode st) in
  isDarkMode st' = bodyDark st'
  <-> (prefersDarkMode = true \/ bodyDark st = false).
Proof.
  intros st'. pose proof (toggles_keep_step n (mount prefersDarkMode st)) as H.
  fold st' in H. simpl in H.
  destruct prefersDarkMode, (bodyDark st); simpl in H;
    destruct (isDarkMode st'), (bodyDark st'); simpl in H;
    try discriminate H; split; intros; auto; try discriminate;
    destruct H0; discriminate.
Qed.

End ThemeFacts.

(* ===================================================================== *)
(** * The lines of the export *)
(* ===================================================================== *)

Module CsvExportFacts.
Import CsvExport StringFacts.

Lemma lines_row (s rest : string) :
  oneLine s = true ->
  lines (String.append s (String.append nl rest)) = s :: lines rest.
Proof.
  induction s as [|c s IH]; intros H; [reflexivity|].
  simpl in H. apply andb_true_iff in H. destruct H as [Hc Hs].
  simpl. apply negb_true_iff in Hc. rewrite Hc.
  change (String.append s (String (ascii_of_nat 10) rest))
    with (String.append s (String.append nl rest)).
  now rewrite (IH Hs).
Qed.

Lemma accumulate {X : Type} (row : X -> string) (l : list X) (init : string) :
  fold_left (fun csv x => String.append csv (String.append (row x) nl)) l init
  = String.append init
      (fold_right (fun x rest => String.append (row x) (String.append nl rest))
                  EmptyString l).
Proof.
  revert init. induction l as [|x l IH]; intros init; simpl.
  - now rewrite append_empty_r.
  - rewrite IH. now rewrite !append_assoc.
Qed.

Lemma lines_rows {X : Type} (row : X -> string) (l : list X) :
  (forall x, In x l -> oneLine (row x) = true) ->
  lines (fold_right (fun x rest => String.append (row x) (String.append nl rest))
                    EmptyString l)
  = map row l ++ [EmptyString].
Proof.
  induction l as [|x l IH]; intros H; [reflexivity|]. cbn [fold_right map].
  rewrite lines_row by (apply H; now left).
  rewrite IH; [reflexivity|]. intros y Hy. apply H. now right.
Qed.

(** Header and rows, each ended by a line feed, split back into the header,
    the rows and the empty string after the last line feed. *)
Lemma lines_table {X : Type} (header : string) (row : X -> string)
  (l : list X) :
  oneLine header = true ->
  (forall x, In x l -> oneLine (row x) = true) ->
  lines (fold_left
           (fun csv x => String.append csv (String.append (row x) nl))
           l (String.append header nl))
  = header :: map row l ++ [EmptyString].
Proof.
  intros Hh Hrows. rewrite accumulate, append_assoc.
  rewrite lines_row by exact Hh. now rewrite lines_rows.
Qed.

Section CsvFacts.
Context {N : JsNumber}.
Variable toFixed2 : num -> string.

(** X18: the export of every section but the overview and the faults,
    the section "reports" of the sidebar among them, is the table of all
    locomotives: split at the line feeds, the header, one row per
    locomotive in the order of the data, and the empty string after the
    last line feed, provided no row holds a line feed. *)
Theorem export_locomotive_lines (d : DashboardData) (activeSection : string) :
  activeSection <> "overview"%string ->
  activeSection <> "faults"%string ->
  (forall loco, In loco (allLocomotives d) ->
                oneLine (locomotiveRow toFixed2 loco) = true) ->
  exists csv filename,
    handleExport toFixed2 (Some d) activeSection = Some (csv, filename)
    /\ lines csv =
       locomotiveHeader :: map (locomotiveRow toFixed2) (allLocomotives d)
                        ++ [EmptyString].
Proof.
  intros Ho Hf Hrows. unfold handleExport.
  rewrite (proj2 (String.eqb_neq _ _) Ho), (proj2 (String.eqb_neq _ _) Hf).
  destruct (String.eqb activeSection "locomotives");
    eexists _, _; (split; [reflexivity|]);
    apply lines_table; [reflexivity|exact Hrows|reflexivity|exact Hrows].
Qed.

(** X19: the export of the faults section, split at the line feeds, is
    the header, one row per fault in the order of the data, and the empty
    string after the last line feed, provided no row holds a line feed. *)
Theorem export_fault_lines (d : DashboardData) :
  (forall fault, In fault (faultDetails d) -> oneLine (faultRow fault) = true) ->
  exists csv,
    handleExport toFixed2 (Some d) "faults"
    = Some (csv, "MARC_PTC_Faults.csv"%string)
    /\ lines csv = faultHeader :: map faultRow (faultDetails d) ++ [EmptyString].
Proof.
  intros Hrows. eexists. split; [reflexivity|].
  apply lines_table; [reflexivity|exact Hrows].
Qed.
End CsvFacts.

End CsvExportFacts.

(* ===================================================================== *)
(** * The further properties on the sample data *)
(* ===================================================================== *)

Module MoreSamples.
Import IntNumber Sample SampleViews DataTable Design TableText.

Section OnSamples.
Local Open Scope string_scope.

Lemma sorted_by_string_column_witness :
  let st := setSortConfig (mkSortConfig "routeId" desc) initialState in
  map (fun r => JS.toString (JS.get r "routeId"))
      (sortedData defaultProps st trainRoutes) = ["R4"; "R3"; "R2"; "R1"]
  /\ StronglySorted
       (fun a b => inOrder desc (JS.toString (JS.get a "routeId"))
                               (JS.toString (JS.get b "routeId")))
       (sortedData defaultProps st trainRoutes).
Proof.
  split; [reflexivity|].
  apply (TableMore.sorted_by_string_column defaultProps
           (setSortConfig (mkSortConfig "routeId" desc) initialState)
           trainRoutes "routeId" desc eq_refl eq_refl).
  intros r Hr. simpl in Hr.
  repeat (destruct Hr as [<-|Hr]; [eexists; reflexivity|]). contradiction.
Defined.

Lemma visible_rows_match_witness :
  In (route "R4" 15) trainRoutes
  /\ (searchable defaultProps = true -> matches "r4" (route "R4" 15) = true).
Proof.
  apply (TableMore.visible_rows_match defaultProps
           (setSearchTerm "r4" initialState) trainRoutes (route "R4" 15)).
  left. reflexivity.
Defined.

Lemma showing_counts_rows_witness :
  let st := setPage 4 initialState in
  showingFrom st = 41 /\ showingTo defaultProps st allLocomotives = 48
  /\ Z.of_nat (List.length (paginatedData defaultProps st allLocomotives))
     = Z.max 0 (showingTo defaultProps st allLocomotives - showingFrom st + 1).
Proof.
  split; [reflexivity|]. split; [reflexivity|].
  apply (TableMore.showing_counts_rows defaultProps (setPage 4 initialState)
           allLocomotives eq_refl); simpl; lia.
Defined.

Lemma only_search_leaves_range_witness :
  0 < rowsPerPage
        (handle defaultProps
           (pageCount defaultProps initialState allLocomotives)
           ClickLast initialState)
  /\ inRange defaultProps
       (handle defaultProps
          (pageCount defaultProps initialState allLocomotives)
          ClickLast initialState)
       allLocomotives.
Proof.
  apply (TableMore.only_search_leaves_range defaultProps initialState
           allLocomotives ClickLast).
  - simpl. lia.
  - intros text. discriminate.
  - unfold inRange. vm_compute. split; intros H; discriminate H.
Defined.

Lemma previous_undoes_next_witness :
  onPrevious (onNext 5 (setPage 2 initialState)) = setPage 2 initialState.
Proof.
  apply (TableMore.previous_undoes_next 5 (setPage 2 initialState));
    simpl; lia.
Defined.

Lemma next_walks_pages_witness :
  run defaultProps allLocomotives (repeat ClickNext 7) initialState
  = setPage 4 initialState.
Proof.
  assert (H : inRange defaultProps initialState allLocomotives).
  { unfold inRange. vm_compute. split; intros H; discriminate H. }
  assert (Hr : 0 < rowsPerPage initialState) by (simpl; lia).
  exact (TableMore.next_walks_pages defaultProps initialState allLocomotives
           7 eq_refl Hr H).
Defined.


Lemma sort_is_never_cleared_witness :
  sortConfig
    (run defaultProps allLocomotives
       [ClickNext; SearchInput "78"; SelectRowsPerPage 2; ClickHeader "id"]
       (handleSort defaultProps "runs" initialState)) <> None.
Proof.
  apply (TableMore.sort_is_never_cleared defaultProps allLocomotives
           [ClickNext; SearchInput "78"; SelectRowsPerPage 2; ClickHeader "id"]
           (handleSort defaultProps "runs" initialState)).
  simpl. discriminate.
Defined.

Lemma cell_text_is_searchable_witness :
  cellText intTruthy (locomotive 1) "id" = "MARC 7801"
  /\ matches (cellText intTruthy (locomotive 1) "id") (locomotive 1) = true.
Proof.
  split; [reflexivity|].
  apply (TableMore.cell_text_is_searchable intTruthy (locomotive 1) "id").
  - simpl. now left.
  - vm_compute. discriminate.
Defined.

Lemma search_refines_witness :
  Design.isAscii "MARC " = true /\ Design.isAscii "78" = true
  /\ Design.isAscii "04" = true
  /\ filteredData defaultProps (setSearchTerm "MARC 7804" initialState)
       allLocomotives
     = filter (matches "MARC 7804")
         (filteredData defaultProps (setSearchTerm "78" initialState)
            allLocomotives).
Proof.
  repeat (split; [reflexivity|]).
  exact (TableMore.search_refines "MARC " "78" "04" initialState
           allLocomotives eq_refl eq_refl eq_refl).
Defined.

Lemma session_appends_witness :
  exists st' new,
    session defaultProps 1%nat [ClickHeader "totalRuns"; SearchInput "R"]
      initialState [allLocomotives; trainRoutes]
    = Some (st', ([allLocomotives; trainRoutes] ++ new)%list).
Proof.
  exact (StoreMore.session_appends defaultProps 1%nat
           [ClickHeader "totalRuns"; SearchInput "R"] initialState
           [allLocomotives; trainRoutes] trainRoutes eq_refl).
Defined.

Lemma first_tab_with_id_wins_witness :
  TabView.shown clashingTabs "faults" = Some "fault table"
  /\ nth_error (TabView.active clashingTabs "faults") 1 = Some true
  /\ nth_error (TabView.active clashingTabs "faults") 3 = Some true.
Proof.
  refine (TabViewFacts.first_tab_with_id_wins
            [TabView.mkTab "locomotives" "Locomotives" "L" "locomotive table"]
            (TabView.mkTab "faults" "Fault Details" "F" "fault table")
            [TabView.mkTab "hourly" "Hourly Activity" "H" "hourly chart"]
            []
            (TabView.mkTab "faults" "Fault Map" "M" "fault map")
            "locomotives" eq_refl _).
  intros u [<-|[]]. simpl. discriminate.
Defined.

Lemma panel_never_empty_witness :
  exists a0,
    TabView.init detailTabs = inr a0
    /\ TabView.shown detailTabs
         (TabView.clicks
            [TabView.mkTab "hourly" "Hourly Activity" "H" "hourly chart";
             TabView.mkTab "faults" "Fault Details" "F" "fault table"] a0)
       <> None
    /\ (NoDup (map TabView.id detailTabs) ->
        TabView.shown detailTabs
          (TabView.clicks
             [TabView.mkTab "hourly" "Hourly Activity" "H" "hourly chart";
              TabView.mkTab "faults" "Fault Details" "F" "fault table"] a0)
        = Some "fault table").
Proof.
  apply (TabViewFacts.panel_never_empty
           (TabView.mkTab "locomotives" "Locomotives" "L" "locomotive table")
           [TabView.mkTab "faults" "Fault Details" "F" "fault table";
            TabView.mkTab "hourly" "Hourly Activity" "H" "hourly chart"]
           [TabView.mkTab "hourly" "Hourly Activity" "H" "hourly chart";
            TabView.mkTab "faults" "Fault Details" "F" "fault table"]).
  constructor; [right; right; left; reflexivity|].
  constructor; [right; left; reflexivity|constructor].
Defined.

Lemma export_locomotive_lines_witness :
  exists csv filename,
    CsvExport.handleExport CsvExport.intToFixed2 (Some sampleData) "reports"
    = Some (csv, filename)
    /\ CsvExport.lines csv =
       [ CsvExport.locomotiveHeader;
         "MARC 7850,5,194.00,192.00,99.00,82,0,3,4";
         "MARC 7851,6,191.00,190.00,99.00,40,1,2,0";
         "" ].
Proof.
  apply (CsvExportFacts.export_locomotive_lines CsvExport.intToFixed2
           sampleData "reports").
  - discriminate.
  - discriminate.
  - intros loco Hl. simpl in Hl.
    repeat (destruct Hl as [<-|Hl]; [reflexivity|]). contradiction.
Defined.

Lemma export_fault_lines_witness :
  exists csv,
    CsvExport.handleExport CsvExport.intToFixed2 (Some sampleData) "faults"
    = Some (csv, "MARC_PTC_Faults.csv")
    /\ CsvExport.lines csv =
       CsvExport.faultHeader
       :: (map CsvExport.faultRow (CsvExport.faultDetails sampleData)
           ++ [""])%list.
Proof.
  apply (CsvExportFacts.export_fault_lines CsvExport.intToFixed2 sampleData).
  intros fault Hf. simpl in Hf.
  repeat (destruct Hf as [<-|Hf]; [reflexivity|]). contradiction.
Defined.

Lemma last_button_shows_last_record_witness :
  let st' := onLast (pageCount defaultProps initialState allLocomotives)
               initialState in
  page st' = 4
  /\ paginatedData defaultProps st' allLocomotives <> []
  /\ last (paginatedData defaultProps st' allLocomotives) []
     = last (sortedData defaultProps initialState allLocomotives) [].
Proof.
  split; [reflexivity|].
  apply (TableMore.last_button_shows_last_record defaultProps initialState
           allLocomotives [] eq_refl).
  - simpl. lia.
  - unfold inRange. vm_compute. split; intros H; discriminate H.
  - intros H. apply (f_equal (@List.length _)) in H.
    vm_compute in H. discriminate H.
Defined.
End OnSamples.

End MoreSamples.

(* ===================================================================== *)
(** * Timestamps in string order *)
(* ===================================================================== *)

Module MockDataFacts.
Import MockData StringFacts.

Lemma compare_append_same_length (a a' s t : string) :
  String.length a = String.length a' ->
  String.compare (String.append a s) (String.append a' t) =
  match String.compare a a' with
  | Eq => String.compare s t
  | c => c
  end.
Proof.
  revert a'. induction a as [|x a IH]; intros [|y a'] H; simpl in *;
    try discriminate; [reflexivity|].
  destruct (Ascii.compare x y); [|reflexivity|reflexivity].
  apply IH. now injection H.
Qed.

Lemma In_below (bound : nat) (z : Z) :
  0 <= z < Z.of_nat bound -> In z (below bound).
Proof.
  intros H. unfold below. rewrite <- (Z2Nat.id z) by lia.
  apply in_map, in_seq. lia.
Qed.

(** Two digits compare as the numbers they print. *)
Lemma two_digits (x y : Z) :
  0 <= x < 60 -> 0 <= y < 60 ->
  String.length (padStart 2 "0" (decimal x)) = 2%nat
  /\ String.compare (padStart 2 "0" (decimal x)) (padStart 2 "0" (decimal y))
     = (x ?= y).
Proof.
  intros Hx Hy.
  assert (Hall :
    forallb (fun a =>
      (Nat.eqb (String.length (padStart 2 "0" (decimal a))) 2 &&
       forallb (fun b =>
         match String.compare (padStart 2 "0" (decimal a))
                              (padStart 2 "0" (decimal b)), (a ?= b) with
         | Eq, Eq | Lt, Lt | Gt, Gt => true
         | _, _ => false
         end) (below 60))%bool) (below 60) = true) by (vm_compute; reflexivity).
  rewrite forallb_forall in Hall.
  specialize (Hall x (In_below 60 x Hx)).
  apply andb_true_iff in Hall. destruct Hall as [Hlen Hcmp].
  split; [now apply Nat.eqb_eq|].
  rewrite forallb_forall in Hcmp. specialize (Hcmp y (In_below 60 y Hy)).
  destruct (String.compare _ _), (x ?= y); congruence.
Qed.

Lemma timestamp_parts (h m : Z) :
  timestamp h m =
  String.append "2025-02-26T"
    (String.append (padStart 2 "0" (decimal h))
       (String.append ":"
          (String.append (padStart 2 "0" (decimal m)) ":00"))).
Proof. reflexivity. Qed.

Lemma timestamp_compare (h m h' m' : Z) :
  0 <= h < 24 -> 0 <= m < 60 -> 0 <= h' < 24 -> 0 <= m' < 60 ->
  String.compare (timestamp h m) (timestamp h' m') =
  match h ?= h' with
  | Eq => m ?= m'
  | c => c
  end.
Proof.
  intros Hh Hm Hh' Hm'. rewrite !timestamp_parts.
  rewrite (compare_append_same_length "2025-02-26T" "2025-02-26T")
    by reflexivity.
  rewrite compare_refl.
  destruct (two_digits h h') as [Lh Ch]; [lia|lia|].
  destruct (two_digits h' h) as [Lh' _]; [lia|lia|].
  rewrite compare_append_same_length by congruence. rewrite Ch.
  destruct (h ?= h'); [|reflexivity|reflexivity].
  rewrite (compare_append_same_length ":" ":") by reflexivity.
  rewrite compare_refl.
  destruct (two_digits m m') as [Lm Cm]; [lia|lia|].
  destruct (two_digits m' m) as [Lm' _]; [lia|lia|].
  rewrite compare_append_same_length by congruence. rewrite Cm.
  destruct (m ?= m'); [|reflexivity|reflexivity].
  apply compare_refl.
Qed.

(** X20: the generated timestamps sort by time of day: for hours below 24
    and minutes below 60, one timestamp is smaller than another under the
    [<] of the table's comparator exactly when its hour is earlier, or the
    hour is the same and its minute is earlier. *)
Theorem timestamps_sort_by_time (h m h' m' : Z) :
  0 <= h < 24 -> 0 <= m < 60 -> 0 <= h' < 24 -> 0 <= m' < 60 ->
  JS.lt (N := IntNumber.number)
        (JS.VStr (timestamp h m)) (JS.VStr (timestamp h' m')) = true
  <-> (h < h' \/ (h = h' /\ m < m')).
Proof.
  intros Hh Hm Hh' Hm'. unfold JS.lt. simpl JS.toPrimitive. cbv iota.
  unfold String.ltb. rewrite timestamp_compare by assumption.
  destruct (h ?= h') eqn:E.
  - apply Z.compare_eq in E. subst.
    destruct (m ?= m') eqn:E'.
    + apply Z.compare_eq in E'. split; [discriminate|lia].
    + rewrite Z.compare_lt_iff in E'. split; [intros _; now right|reflexivity].
    + rewrite Z.compare_gt_iff in E'. split; [discriminate|lia].
  - rewrite Z.compare_lt_iff in E. split; [intros _; now left|reflexivity].
  - rewrite Z.compare_gt_iff in E. split; [discriminate|lia].
Qed.

Lemma timestamps_sort_by_time_witness :
  timestamp 8 5 = "2025-02-26T08:05:00"%string
  /\ (JS.lt (N := IntNumber.number)
        (JS.VStr (timestamp 8 5)) (JS.VStr (timestamp 13 0)) = true
      <-> (8 < 13 \/ (8 = 13 /\ 5 < 0))).
Proof.
  split; [reflexivity|].
  apply (timestamps_sort_by_time 8 5 13 0); lia.
Defined.

End MockDataFacts.
